(** * Splice-site derivation of [scripts/process_gtf.py]

    A shallow embedding of [generate_splice_sites] and of the pandas
    operations it is written with ([groupby], [sort_values],
    [drop_duplicates], column projection), together with the properties
    of the pipeline.

    Tables are lists of rows carrying the list of their column names;
    Python exceptions are an explicit error result. *)

From Stdlib Require Import String Ascii ZArith NArith Bool Lia List.
From Stdlib Require Import Sorted Permutation.
Import ListNotations.

Local Open Scope string_scope.
Local Open Scope Z_scope.
Local Open Scope list_scope.

Set Implicit Arguments.

(* ================================================================== *)
(** ** Python values: exceptions, tables *)

(** The exceptions the pipeline can end with.  [KeyError] is what
    [DataFrame.groupby] raises for a column that is not in the table;
    [MalformedGroupError] belongs to the transcript builder; any other
    exception of the imported modules goes by its class name. *)
Inductive exn : Type :=
| KeyError (column : string)
| MalformedGroupError
| OtherException (class_name : string).

Inductive result (A : Type) : Type :=
| Ok (a : A)
| Raise (e : exn).

Arguments Ok {A} a.
Arguments Raise {A} e.

Definition bind {A B : Type} (m : result A) (k : A -> result B) : result B :=
  match m with
  | Ok a => k a
  | Raise e => Raise e
  end.

Notation "x <- m ;; k" := (bind m (fun x => k))
  (at level 61, m at next level, right associativity).

(** A comprehension whose body may raise: the first exception, in
    iteration order, ends it. *)
Fixpoint mapM {A B : Type} (f : A -> result B) (l : list A) : result (list B) :=
  match l with
  | [] => Ok []
  | a :: l' => b <- f a ;; bs <- mapM f l' ;; Ok (b :: bs)
  end.

(** A [pd.DataFrame]: the column labels and the rows, in row order.
    The index is not modelled, so [reset_index(drop=True)] is the
    identity. *)
Record Frame (R : Type) : Type := mkFrame {
  columns : list string;
  rows : list R
}.

Arguments mkFrame {R} columns rows.

Definition has_column {R : Type} (df : Frame R) (c : string) : bool :=
  existsb (String.eqb c) (columns df).

(** One row of the GTF table.  [transcript_id] is [None] where the table
    holds NaN (gene-level rows). *)
Record Row : Type := mkRow {
  Chromosome : string;
  Start : Z;
  End_ : Z;
  Strand : string;
  Feature : string;
  gene_id : string;
  transcript_id : option string;
  gene_id_nopatch : string
}.

Definition DataFrame : Type := Frame Row.

(** A row of the junction table, [[chromosome, start, end, strand]]. *)
Definition Junction : Type := (string * Z * Z * string)%type.

(** A row of an output table, [[chromosome, position, strand]]. *)
Definition Site : Type := (string * Z * string)%type.

(** The columns of a junction row and of a site row. *)
Definition junction_chromosome (j : Junction) : string := fst (fst (fst j)).
Definition junction_start (j : Junction) : Z := snd (fst (fst j)).
Definition junction_end (j : Junction) : Z := snd (fst j).
Definition junction_strand (j : Junction) : string := snd j.

Definition site_chromosome (s : Site) : string := fst (fst s).
Definition site_position (s : Site) : Z := snd (fst s).
Definition site_strand (s : Site) : string := snd s.

(* ================================================================== *)
(** ** Stable sorting

    [sort_values] on several columns and [sorted] are stable: rows with
    equal keys keep their relative order.  The stable sort of a list is
    unique, so the insertion sort below stands for any stable
    algorithm. *)

Section StableSortDef.

Variable A : Type.
Variable leb : A -> A -> bool.

Fixpoint insert_stable (x : A) (l : list A) : list A :=
  match l with
  | [] => [x]
  | y :: l' => if leb x y then x :: y :: l' else y :: insert_stable x l'
  end.

Fixpoint stable_sort (l : list A) : list A :=
  match l with
  | [] => []
  | x :: l' => insert_stable x (stable_sort l')
  end.

Definition le (a b : A) : Prop := leb a b = true.

(** Rows the comparison cannot tell apart. *)
Definition same_key (a b : A) : bool := leb a b && leb b a.

(** What any stable sorting algorithm returns on [l]: a sorted list in
    which the rows of each key are the rows of [l] of that key, in the
    order of [l]. *)
Definition is_stable_sort (l l' : list A) : Prop :=
  StronglySorted le l' /\
  forall a, filter (same_key a) l' = filter (same_key a) l.

End StableSortDef.

(* ================================================================== *)
(** ** Removing duplicates, first occurrence kept *)

Section DropDuplicatesDef.

Variable A : Type.
Variable eqb : A -> A -> bool.

Definition mem (x : A) (l : list A) : bool := existsb (eqb x) l.

(** [duplicated(keep='first')] followed by the selection of the rows
    not marked: a row is dropped when an equal row was seen before. *)
Fixpoint drop_seen (seen : list A) (l : list A) : list A :=
  match l with
  | [] => []
  | x :: l' =>
      if mem x seen then drop_seen seen l'
      else x :: drop_seen (x :: seen) l'
  end.

Definition unique (l : list A) : list A := drop_seen [] l.

End DropDuplicatesDef.

(* ================================================================== *)
(** ** pandas operations used by the script *)

Definition option_string_eqb (o : option string) (k : string) : bool :=
  match o with
  | Some t => String.eqb t k
  | None => false
  end.

(** The non-NaN values of the [transcript_id] column, in row order. *)
Fixpoint present_ids (rs : list Row) : list string :=
  match rs with
  | [] => []
  | r :: rs' =>
      match transcript_id r with
      | Some t => t :: present_ids rs'
      | None => present_ids rs'
      end
  end.

(** The group keys of [groupby('transcript_id')]: NaN keys are dropped
    ([dropna=True]) and the keys come sorted ([sort=True]). *)
Definition group_keys (rs : list Row) : list string :=
  stable_sort String.leb (unique String.eqb (present_ids rs)).

Definition group_rows (k : string) (rs : list Row) : list Row :=
  filter (fun r => option_string_eqb (transcript_id r) k) rs.

(** [gtf.groupby('transcript_id')], iterated: the pairs [(k, df)] in key
    order, every [df] holding the rows of key [k] in table order. *)
Definition groupby_transcript_id (gtf : DataFrame)
  : result (list (string * DataFrame)) :=
  if has_column gtf "transcript_id" then
    Ok (map (fun k => (k, mkFrame (columns gtf) (group_rows k (rows gtf))))
            (group_keys (rows gtf)))
  else Raise (KeyError "transcript_id").

Definition junction_eqb (a b : Junction) : bool :=
  let '(c1, s1, e1, d1) := a in
  let '(c2, s2, e2, d2) := b in
  String.eqb c1 c2 && Z.eqb s1 s2 && Z.eqb e1 e2 && String.eqb d1 d2.

(** The order of [sort_values(by=['Chromosome', 'Start'])]. *)
Definition junction_key_leb (a b : Junction) : bool :=
  let '(c1, s1, _, _) := a in
  let '(c2, s2, _, _) := b in
  String.ltb c1 c2 || (String.eqb c1 c2 && Z.leb s1 s2).

Definition sort_values (df : Frame Junction) : Frame Junction :=
  mkFrame (columns df) (stable_sort junction_key_leb (rows df)).

Definition drop_duplicates (df : Frame Junction) : Frame Junction :=
  mkFrame (columns df) (unique junction_eqb (rows df)).

Definition start_site (j : Junction) : Site :=
  let '(c, s, _, d) := j in (c, s, d).

Definition end_site (j : Junction) : Site :=
  let '(c, _, e, d) := j in (c, e, d).

(** [df[['Chromosome', 'Start', 'Strand']]] *)
Definition select_starts (df : Frame Junction) : Frame Site :=
  mkFrame ["Chromosome"; "Start"; "Strand"] (map start_site (rows df)).

(** [df[['Chromosome', 'End', 'Strand']]] *)
Definition select_ends (df : Frame Junction) : Frame Site :=
  mkFrame ["Chromosome"; "End"; "Strand"] (map end_site (rows df)).

(* ================================================================== *)
(** ** The modules [alphagenome.data.genome] and
    [alphagenome.data.transcript]

    The script imports them; their definitions follow the design
    document of the pipeline. *)

Module genome.

(** Modelled from the spec: the interval
    [{chromosome, start, end, strand}] of the data model, the class
    [Interval] of the missing module [alphagenome.data.genome], which the
    script reads through [x.chromosome], [x.start], [x.end] and
    [x.strand]. *)
Record Interval : Type := mkInterval {
  chromosome : string;
  start : Z;
  end_ : Z;
  strand : string
}.

End genome.

Module transcript_utils.

(** Modelled from the spec: the exon interval [{chromosome, start, end}]
    of the data model, held by the class [Transcript] of the missing
    module [alphagenome.data.transcript]. *)
Record Exon : Type := mkExon {
  exon_chromosome : string;
  exon_start : Z;
  exon_end : Z
}.

(** Modelled from the spec: the class [Transcript] of the missing module
    [alphagenome.data.transcript], an exon list sorted by start with the
    one chromosome and strand its exons share. *)
Record Transcript : Type := mkTranscript {
  t_chromosome : string;
  t_strand : string;
  exons : list Exon
}.

Definition is_exon (r : Row) : bool := String.eqb (Feature r) "exon".

Definition exon_of_row (r : Row) : Exon :=
  mkExon (Chromosome r) (Start r) (End_ r).

Definition exon_start_leb (a b : Exon) : bool :=
  Z.leb (exon_start a) (exon_start b).

(** Modelled from the spec: the integrity condition of a transcript
    partition, all its exon rows on one chromosome and one strand (the
    condition whose violation is the MalformedGroupError of the missing
    module [alphagenome.data.transcript]). *)
Definition rows_agree (rs : list Row) : bool :=
  match rs with
  | [] => true
  | r0 :: rest =>
      forallb (fun r => String.eqb (Chromosome r) (Chromosome r0)
                        && String.eqb (Strand r) (Strand r0)) rest
  end.

(** Modelled from the spec: [Transcript.from_gtf_df] of the missing
    module [alphagenome.data.transcript].  The exon list is the rows of
    the partition with feature exon, sorted by start ascending; exon
    rows that disagree on chromosome or strand raise at once.  A
    partition without exon rows takes chromosome and strand from its
    first row. *)
Definition from_gtf_df (df : DataFrame) : result Transcript :=
  let exon_rows := filter is_exon (rows df) in
  if rows_agree exon_rows then
    let r0 := hd (hd (mkRow "" 0 0 "" "" "" None "") (rows df)) exon_rows in
    Ok (mkTranscript (Chromosome r0) (Strand r0)
          (stable_sort exon_start_leb (map exon_of_row exon_rows)))
  else Raise MalformedGroupError.

(** Modelled from the spec: the gaps between consecutive exons, intron
    [i] running from the end of exon [i] to the start of exon [i+1]
    (the body of [Transcript.introns] of the missing module
    [alphagenome.data.transcript]). *)
Fixpoint gaps (c d : string) (es : list Exon) : list genome.Interval :=
  match es with
  | [] => []
  | e1 :: tl =>
      match tl with
      | [] => []
      | e2 :: _ =>
          genome.mkInterval c (exon_end e1) (exon_start e2) d :: gaps c d tl
      end
  end.

(** Modelled from the spec: the property [Transcript.introns] of the
    missing module [alphagenome.data.transcript]. *)
Definition introns (t : Transcript) : list genome.Interval :=
  gaps (t_chromosome t) (t_strand t) (exons t).

End transcript_utils.

(* ================================================================== *)
(** ** [generate_splice_sites]

    The function is written against the interface of the transcript
    module it imports: a constructor [from_gtf_df] of transcripts from a
    group of rows and the property [introns] of a transcript, either of
    which may raise. *)

Definition junction_of (x : genome.Interval) : Junction :=
  (genome.chromosome x, genome.start x, genome.end_ x, genome.strand x).

Definition junction_columns : list string :=
  ["Chromosome"; "Start"; "End"; "Strand"].

(** The sort-then-dedup step applied to the junction table. *)
Definition sort_dedup (df : Frame Junction) : Frame Junction :=
  drop_duplicates (sort_values df).

Section Pipeline.

Variable Transcript : Type.
Variable from_gtf_df : DataFrame -> result Transcript.
Variable introns : Transcript -> result (list genome.Interval).

(** The dict comprehension over the groups: built in group order, which
    the dict keeps; the first group whose transcript cannot be built
    ends it. *)
Definition transcripts (gtf : DataFrame) : result (list (string * Transcript)) :=
  groups <- groupby_transcript_id gtf ;;
  mapM (fun kdf : string * DataFrame =>
          t <- from_gtf_df (snd kdf) ;; Ok (fst kdf, t))
       groups.

(** The rows one transcript adds to [junctions]; reading
    [transcript.introns] may raise. *)
Definition junction_rows (kt : string * Transcript) : result (list Junction) :=
  xs <- introns (snd kt) ;; Ok (map junction_of xs).

(** The loop extending [junctions] with the introns of every
    transcript, in the order of the dict; the first transcript whose
    introns cannot be read ends it. *)
Definition junctions (ts : list (string * Transcript))
  : result (list Junction) :=
  added <- mapM junction_rows ts ;; Ok (concat added).

(** The table [df] of the function body, after [drop_duplicates] and
    [reset_index]. *)
Definition junction_table (gtf : DataFrame) : result (Frame Junction) :=
  ts <- transcripts gtf ;;
  accumulated <- junctions ts ;;
  Ok (sort_dedup (mkFrame junction_columns accumulated)).

Definition generate_splice_sites (gtf : DataFrame)
  : result (Frame Site * Frame Site) :=
  df <- junction_table gtf ;;
  Ok (select_starts df, select_ends df).

(** The function run with an arbitrary stable sorting algorithm in
    [sort_values]. *)
Inductive generate_splice_sites_run (gtf : DataFrame)
  : result (Frame Site * Frame Site) -> Prop :=
| run_raise e :
    transcripts gtf = Raise e ->
    generate_splice_sites_run gtf (Raise e)
| run_raise_introns ts e :
    transcripts gtf = Ok ts ->
    junctions ts = Raise e ->
    generate_splice_sites_run gtf (Raise e)
| run_return ts accumulated sorted :
    transcripts gtf = Ok ts ->
    junctions ts = Ok accumulated ->
    is_stable_sort junction_key_leb accumulated sorted ->
    generate_splice_sites_run gtf
      (let df := drop_duplicates (mkFrame junction_columns sorted) in
       Ok (select_starts df, select_ends df)).

End Pipeline.

(** Reading [transcript.introns] in the transcript module of the design
    document, where it does not raise. *)
Definition read_introns (t : transcript_utils.Transcript)
  : result (list genome.Interval) :=
  Ok (transcript_utils.introns t).

(** The function with the transcript module of the design document. *)
Definition generate_splice_sites_modelled (gtf : DataFrame)
  : result (Frame Site * Frame Site) :=
  generate_splice_sites transcript_utils.from_gtf_df read_introns gtf.

Definition junction_table_modelled (gtf : DataFrame) : result (Frame Junction) :=
  junction_table transcript_utils.from_gtf_df read_introns gtf.

(** The comparison of [sort_values] read on the columns: the chromosome
    is strictly below, or it is the same and the start is not above. *)
Definition key_le (c1 : string) (s1 : Z) (c2 : string) (s2 : Z) : Prop :=
  String.ltb c1 c2 = true \/ (c1 = c2 /\ s1 <= s2).

(** A table read top to bottom, a row kept exactly when no equal row
    stands above it. *)
Inductive first_occurrences (A : Type) : list A -> list A -> Prop :=
| first_occurrences_nil : first_occurrences [] []
| first_occurrences_dup l l' x :
    first_occurrences l l' -> In x l ->
    first_occurrences (l ++ [x]) l'
| first_occurrences_new l l' x :
    first_occurrences l l' -> ~ In x l ->
    first_occurrences (l ++ [x]) (l' ++ [x]).

Definition has_transcript_id (r : Row) : bool :=
  match transcript_id r with
  | Some _ => true
  | None => false
  end.

(** The table without its gene-level rows. *)
Definition dropna_transcript_id (gtf : DataFrame) : DataFrame :=
  mkFrame (columns gtf) (filter has_transcript_id (rows gtf)).

(** Exon rows of one partition on two chromosomes or two strands. *)
Definition partition_disagrees (df : DataFrame) : Prop :=
  exists r1 r2,
    In r1 (rows df) /\ In r2 (rows df) /\
    Feature r1 = "exon" /\ Feature r2 = "exon" /\
    (Chromosome r1 <> Chromosome r2 \/ Strand r1 <> Strand r2).

(** The number of exon rows of transcript [k]. *)
Definition exon_count (gtf : DataFrame) (k : string) : nat :=
  length (filter transcript_utils.is_exon (group_rows k (rows gtf))).

(** Consecutive exons with a gap between them. *)
Definition separated (e1 e2 : transcript_utils.Exon) : Prop :=
  transcript_utils.exon_end e1 < transcript_utils.exon_start e2.

(* ================================================================== *)
(** ** The fixture of [process_gtf_test.py] and further tables *)

Definition gtf_columns : list string :=
  ["Chromosome"; "Start"; "End"; "Strand"; "gene_id"; "gene_id_nopatch";
   "transcript_id"; "Feature"].

Definition fixture_row (s e : Z) (t : option string) (f : string) : Row :=
  mkRow "chr1" s e "+" f "GENE00000000001.1" t "GENE00000000001".

Definition _PROCESSED_GTF : DataFrame :=
  mkFrame gtf_columns
    [ fixture_row 12099 21316 None "gene";
      fixture_row 12099 18244 (Some "TRANS00000000001.2") "transcript";
      fixture_row 12099 14148 (Some "TRANS00000000001.2") "exon";
      fixture_row 16195 17220 (Some "TRANS00000000001.2") "exon" ].

Definition example_row (c : string) (s e : Z) (d : string)
  (t : option string) (f : string) : Row :=
  mkRow c s e d f "G" t "G".

(** A table with a gene row, three transcripts on [chr1] of which two
    share an intron and two share only an intron start, one transcript
    on [chr10] and a single-exon transcript on [chr2]. *)
Definition example_gtf : DataFrame :=
  mkFrame gtf_columns
    [ example_row "chr1" 100 600 "+" None "gene";
      example_row "chr10" 10 20 "-" (Some "T4") "exon";
      example_row "chr1" 300 400 "+" (Some "T1") "exon";
      example_row "chr1" 100 200 "+" (Some "T1") "exon";
      example_row "chr1" 500 600 "+" (Some "T1") "exon";
      example_row "chr1" 100 200 "+" (Some "T2") "exon";
      example_row "chr1" 350 400 "+" (Some "T2") "exon";
      example_row "chr1" 150 200 "+" (Some "T3") "exon";
      example_row "chr1" 300 380 "+" (Some "T3") "exon";
      example_row "chr10" 30 40 "-" (Some "T4") "exon";
      example_row "chr2" 5 9 "+" (Some "T5") "exon" ].

Definition example_junction_table : Frame Junction :=
  mkFrame junction_columns
    [ ("chr1", 200, 300, "+"); ("chr1", 200, 350, "+");
      ("chr1", 400, 500, "+"); ("chr10", 20, 30, "-") ].

Definition example_starts : Frame Site :=
  mkFrame ["Chromosome"; "Start"; "Strand"]
    [ ("chr1", 200, "+"); ("chr1", 200, "+");
      ("chr1", 400, "+"); ("chr10", 20, "-") ].

Definition example_ends : Frame Site :=
  mkFrame ["Chromosome"; "End"; "Strand"]
    [ ("chr1", 300, "+"); ("chr1", 350, "+");
      ("chr1", 500, "+"); ("chr10", 30, "-") ].

Definition empty_starts : Frame Site :=
  mkFrame ["Chromosome"; "Start"; "Strand"] [].

Definition empty_ends : Frame Site :=
  mkFrame ["Chromosome"; "End"; "Strand"] [].

(** A gene row and two transcripts of one exon each. *)
Definition single_exon_gtf : DataFrame :=
  mkFrame gtf_columns
    [ example_row "chr1" 100 600 "+" None "gene";
      example_row "chr1" 100 600 "+" (Some "T1") "transcript";
      example_row "chr1" 100 200 "+" (Some "T1") "exon";
      example_row "chr2" 300 400 "-" (Some "T2") "exon" ].

(** A well-formed schema whose only row, a gene row, has start = end. *)
Definition empty_gene_gtf : DataFrame :=
  mkFrame gtf_columns [ example_row "chr1" 5 5 "+" None "gene" ].

(** A transcript of two exons, the second starting where the first
    ends. *)
Definition adjacent_exons_gtf : DataFrame :=
  mkFrame gtf_columns
    [ example_row "chr1" 100 200 "+" (Some "T1") "exon";
      example_row "chr1" 200 300 "+" (Some "T1") "exon" ].

(** A transcript whose exon rows are on two strands. *)
Definition two_strands_gtf : DataFrame :=
  mkFrame gtf_columns
    [ example_row "chr1" 100 200 "+" (Some "T1") "exon";
      example_row "chr1" 300 400 "-" (Some "T1") "exon" ].

(** A table without the column [transcript_id]. *)
Definition no_transcript_id_gtf : DataFrame :=
  mkFrame ["Chromosome"; "Start"; "End"; "Strand"; "Feature"]
    [ example_row "chr1" 100 200 "+" None "exon" ].

(** A table without rows whose only column is [transcript_id]. *)
Definition only_transcript_id_gtf : DataFrame :=
  mkFrame ["transcript_id"] [].

(* ================================================================== *)
(** ** [generate_gtf]: the column [gene_id_nopatch] *)

(** The first piece of [s.split('.')], the element of column [0] of
    [str.split('.', expand=True)]: the string up to its first dot.  The
    byte of the dot occurs in no multi-byte UTF-8 sequence, so cutting
    bytes and cutting code points agree. *)
Fixpoint before_first_dot (s : string) : string :=
  match s with
  | EmptyString => EmptyString
  | String c s' =>
      if Ascii.eqb c "."%char then EmptyString
      else String c (before_first_dot s')
  end.

Definition set_gene_id_nopatch (r : Row) : Row :=
  mkRow (Chromosome r) (Start r) (End_ r) (Strand r) (Feature r)
        (gene_id r) (transcript_id r) (before_first_dot (gene_id r)).

(** The columns after [gtf['gene_id_nopatch'] = ...]: a new column goes
    last, an existing one keeps its place. *)
Definition columns_with (c : string) (cols : list string) : list string :=
  if existsb (String.eqb c) cols then cols else cols ++ [c].

(** [gtf['gene_id_nopatch'] = gtf['gene_id'].str.split('.', expand=True)[0]].
    A table without the column [gene_id] raises [KeyError]; on a table
    without rows [str.split(expand=True)] gives a frame without columns,
    and [[0]] raises [KeyError: 0]. *)
Definition assign_gene_id_nopatch (gtf : DataFrame) : result DataFrame :=
  if has_column gtf "gene_id" then
    match rows gtf with
    | [] => Raise (KeyError "0")
    | _ :: _ =>
        Ok (mkFrame (columns_with "gene_id_nopatch" (columns gtf))
                    (map set_gene_id_nopatch (rows gtf)))
    end
  else Raise (KeyError "gene_id").

(* ================================================================== *)
(** ** Python string methods used by [main] *)

(** [s.endswith(suffix)]: [s] is [suffix], or its tail ends with it. *)
Fixpoint endswith (s suffix : string) : bool :=
  String.eqb s suffix ||
  match s with
  | EmptyString => false
  | String _ s' => endswith s' suffix
  end.

(** [s.removesuffix(suffix)]: [s] without a trailing [suffix], and [s]
    itself when it does not end with it. *)
Fixpoint removesuffix (s suffix : string) : string :=
  if String.eqb s suffix then EmptyString
  else match s with
       | EmptyString => s
       | String c s' =>
           if endswith s' suffix then String c (removesuffix s' suffix)
           else s
       end.

Definition splice_sites_start_path (splice_sites_output_path : string) : string :=
  (removesuffix splice_sites_output_path ".feather" ++ "_starts.feather")%string.

Definition splice_sites_end_path (splice_sites_output_path : string) : string :=
  (removesuffix splice_sites_output_path ".feather" ++ "_ends.feather")%string.

(* ================================================================== *)
(** ** The script: flags, library calls, [generate_gtf] and [main] *)

(** The three flags; [gtf_path] and [output_path] are required. *)
Record Flags : Type := mkFlags {
  gtf_path : string;
  output_path : string;
  splice_sites_output_path : option string
}.

Inductive feather_table : Type :=
| GtfTable (df : DataFrame)
| SitesTable (df : Frame Site).

(** The calls that reach outside the process, as they are made. *)
Inductive io_call : Type :=
| Urlretrieve (url : string)
| ReadGtf (path : string)
| ToFeather (path : string) (table : feather_table).

(** What ends a run of [main]: its own [ValueError], an exception of
    the table functions, or the exception of a library call. *)
Inductive script_exn : Type :=
| ValueError (message : string)
| Raised (e : exn)
| CallFailed (c : io_call).

(** A computation of the script: the calls made, in order, and the
    exception or the value it ends with. *)
Definition io (A : Type) : Type := (list io_call * (script_exn + A))%type.

Definition io_ret {A : Type} (a : A) : io A := ([], inr a).

Definition io_raise {A : Type} (e : script_exn) : io A := ([], inl e).

Definition io_bind {A B : Type} (m : io A) (k : A -> io B) : io B :=
  match snd m with
  | inl e => (fst m, inl e)
  | inr a => (fst m ++ fst (k a), snd (k a))
  end.

Notation "x <<- m ;; k" := (io_bind m (fun x => k))
  (at level 61, m at next level, right associativity).

(** A library call: it is recorded, and it returns or raises. *)
Definition io_call_of {A : Type} (c : io_call) (r : option A) : io A :=
  ([c], match r with
        | Some a => inr a
        | None => inl (CallFailed c)
        end).

Definition io_lift {A : Type} (r : result A) : io A :=
  ([], match r with
       | Ok a => inr a
       | Raise e => inl (Raised e)
       end).

Section Script.

(** [parse.urlparse(path)]: the scheme and the netloc, or the message of
    the [ValueError] it raises. *)
Variable urlparse : string -> string + (string * string).
(** [request.urlretrieve] into a fresh temporary directory: the local
    file name, unless the step raises. *)
Variable urlretrieve : string -> option string.
(** [pyranges.read_gtf(path, as_df=True, duplicate_attr=True)]. *)
Variable read_gtf : string -> option DataFrame.
(** [table.to_feather(path)]: whether the write succeeds. *)
Variable to_feather : feather_table -> string -> bool.

Variable Transcript : Type.
Variable from_gtf_df : DataFrame -> result Transcript.
Variable introns : Transcript -> result (list genome.Interval).

Definition write_feather (table : feather_table) (path : string) : io unit :=
  io_call_of (ToFeather path table)
             (if to_feather table path then Some tt else None).

(** [all([url.scheme, url.netloc])]: both strings are not empty. *)
Definition all_scheme_netloc (url : string * string) : bool :=
  negb (String.eqb (fst url) "") && negb (String.eqb (snd url) "").

Definition generate_gtf (path : string) : io DataFrame :=
  match urlparse path with
  | inl message => io_raise (ValueError message)
  | inr url =>
      gtf <<- (if all_scheme_netloc url
               then local <<- io_call_of (Urlretrieve path) (urlretrieve path) ;;
                    io_call_of (ReadGtf local) (read_gtf local)
               else io_call_of (ReadGtf path) (read_gtf path)) ;;
      io_lift (assign_gene_id_nopatch gtf)
  end.

(** [main]; the logging calls are left out. *)
Definition main (flags : Flags) : io unit :=
  if negb (endswith (output_path flags) ".feather") then
    io_raise (ValueError "Output path must end with .feather")
  else
    gtf <<- generate_gtf (gtf_path flags) ;;
    _ <<- write_feather (GtfTable gtf) (output_path flags) ;;
    match splice_sites_output_path flags with
    | None => io_ret tt
    | Some p =>
        sites <<- io_lift (generate_splice_sites from_gtf_df introns gtf) ;;
        _ <<- write_feather (SitesTable (fst sites)) (splice_sites_start_path p) ;;
        write_feather (SitesTable (snd sites)) (splice_sites_end_path p)
    end.

End Script.

(** The junctions with chromosome [c] and start [s]. *)
Definition at_key (c : string) (s : Z) (j : Junction) : bool :=
  String.eqb (junction_chromosome j) c && Z.eqb (junction_start j) s.

(** A string without dot. *)
Fixpoint no_dot (s : string) : Prop :=
  match s with
  | EmptyString => True
  | String c s' => c <> "."%char /\ no_dot s'
  end.

(** Rows that differ at most in the column [gene_id_nopatch]. *)
Definition same_but_nopatch (r r' : Row) : Prop :=
  Chromosome r' = Chromosome r /\ Start r' = Start r /\ End_ r' = End_ r /\
  Strand r' = Strand r /\ Feature r' = Feature r /\
  gene_id r' = gene_id r /\ transcript_id r' = transcript_id r.

(** A world for the examples: local paths only, every file holds the
    given table, every write succeeds. *)
Definition example_main (table : DataFrame) (flags : Flags) : io unit :=
  main (fun _ => inr ("", "")) (fun _ => None) (fun _ => Some table)
       (fun _ _ => true)
       transcript_utils.from_gtf_df read_introns flags.

(** The table of the test without its column [transcript_id]. *)
Definition no_transcript_id_table : DataFrame :=
  mkFrame ["Chromosome"; "Start"; "End"; "Strand"; "gene_id"; "Feature"]
          (rows _PROCESSED_GTF).

(** Three transcripts: [T1] well formed, [T2] with exon rows on two
    strands, [T3] with exon rows on two chromosomes. *)
Definition two_malformed_gtf : DataFrame :=
  mkFrame gtf_columns
    [ example_row "chr1" 100 200 "+" (Some "T3") "exon";
      example_row "chr2" 300 400 "+" (Some "T3") "exon";
      example_row "chr1" 100 200 "+" (Some "T2") "exon";
      example_row "chr1" 300 400 "-" (Some "T2") "exon";
      example_row "chr1" 100 200 "+" (Some "T1") "exon";
      example_row "chr1" 300 400 "+" (Some "T1") "exon" ].

(** A transcript module for the examples: a transcript is its
    partition, and its introns cannot be read when the partition has
    more than two rows. *)
Definition partition_transcript (df : DataFrame) : result DataFrame := Ok df.

Definition partition_introns (df : DataFrame) : result (list genome.Interval) :=
  if Nat.ltb 2 (length (rows df))
  then Raise (OtherException "ValueError")
  else Ok [].

Definition example_flags : Flags :=
  mkFlags "annotation.gtf" "out/gtf.feather" (Some "out/sites.feather").

(* ================================================================== *)
(** * Properties *)

(** [test_generate_splice_sites] *)
Example test_generate_splice_sites :
  generate_splice_sites_modelled _PROCESSED_GTF =
  Ok (mkFrame ["Chromosome"; "Start"; "Strand"] [("chr1", 14148, "+")],
      mkFrame ["Chromosome"; "End"; "Strand"] [("chr1", 16195, "+")]).
Proof. reflexivity. Qed.

Example example_generate_splice_sites :
  generate_splice_sites_modelled example_gtf = Ok (example_starts, example_ends).
Proof. reflexivity. Qed.

Example example_junction_table_eq :
  junction_table_modelled example_gtf = Ok example_junction_table.
Proof. reflexivity. Qed.

(* ================================================================== *)
(** ** Order of Python strings

  Python compares [str] by code point, which on the UTF-8 bytes is the
  lexicographic byte order of [String.compare]. *)

Module StrOrd.

Lemma compare_refl (s : string) : String.compare s s = Eq.
Proof.
  induction s as [|c s IH]; simpl; [reflexivity|].
  unfold Ascii.compare. now rewrite N.compare_refl.
Qed.

Lemma compare_lt_trans (a b c : string) :
  String.compare a b = Lt -> String.compare b c = Lt ->
  String.compare a c = Lt.
Proof.
  revert b c.
  induction a as [|x a IH]; intros [|y b] [|z c]; simpl;
    try congruence.
  unfold Ascii.compare.
  destruct (N.compare_spec (N_of_ascii x) (N_of_ascii y)) as [E1|L1|G1];
    destruct (N.compare_spec (N_of_ascii y) (N_of_ascii z)) as [E2|L2|G2];
    try congruence; intros H1 H2.
  - rewrite E1, E2, N.compare_refl. eauto.
  - rewrite E1. apply N.compare_lt_iff in L2. now rewrite L2.
  - rewrite <- E2. apply N.compare_lt_iff in L1. now rewrite L1.
  - assert (L : (N_of_ascii x < N_of_ascii z)%N) by lia.
    apply N.compare_lt_iff in L. now rewrite L.
Qed.

Lemma ltb_lt (a b : string) : (a <? b)%string = true <-> String.compare a b = Lt.
Proof. unfold String.ltb. destruct (String.compare a b); intuition congruence. Qed.

Lemma ltb_irrefl (a : string) : (a <? a)%string = false.
Proof. unfold String.ltb. now rewrite compare_refl. Qed.

Lemma ltb_trans (a b c : string) :
  (a <? b)%string = true -> (b <? c)%string = true -> (a <? c)%string = true.
Proof. rewrite !ltb_lt. apply compare_lt_trans. Qed.

Lemma ltb_asym (a b : string) :
  (a <? b)%string = true -> (b <? a)%string = false.
Proof.
  intros H. destruct (b <? a)%string eqn:E; [|reflexivity].
  pose proof (ltb_trans _ _ _ H E) as C. now rewrite ltb_irrefl in C.
Qed.

Lemma trichotomy (a b : string) :
  (a <? b)%string = true \/ a = b \/ (b <? a)%string = true.
Proof.
  rewrite !ltb_lt, (String.compare_antisym b a).
  destruct (String.compare a b) eqn:E; simpl; auto.
  right; left. now apply String.compare_eq_iff.
Qed.

Lemma leb_refl (a : string) : (a <=? a)%string = true.
Proof. unfold String.leb. now rewrite compare_refl. Qed.

Lemma leb_ltb_or_eq (a b : string) :
  (a <=? b)%string = true <-> (a <? b)%string = true \/ a = b.
Proof.
  unfold String.leb, String.ltb. split.
  - destruct (String.compare a b) eqn:E; try discriminate; auto.
    right. now apply String.compare_eq_iff.
  - intros [H| ->]; [|now rewrite compare_refl].
    destruct (String.compare a b); congruence.
Qed.

Lemma leb_trans (a b c : string) :
  (a <=? b)%string = true -> (b <=? c)%string = true -> (a <=? c)%string = true.
Proof.
  rewrite !leb_ltb_or_eq. intros [H1| ->] [H2| ->]; auto.
  left. eapply ltb_trans; eassumption.
Qed.

End StrOrd.

(* ================================================================== *)
(** ** Properties of the stable sort *)

Section StableSort.

Variable A : Type.
Variable leb : A -> A -> bool.

Local Abbreviation le := (le leb).
Local Abbreviation insert_stable := (insert_stable leb).
Local Abbreviation stable_sort := (stable_sort leb).

Lemma insert_stable_perm x l : Permutation (insert_stable x l) (x :: l).
Proof.
  induction l as [|y l IH]; simpl; [reflexivity|].
  destruct (leb x y); [reflexivity|].
  rewrite IH. apply perm_swap.
Qed.

Lemma stable_sort_perm l : Permutation (stable_sort l) l.
Proof.
  induction l as [|x l IH]; simpl; [reflexivity|].
  rewrite insert_stable_perm. now constructor.
Qed.

Lemma stable_sort_length l : length (stable_sort l) = length l.
Proof. apply Permutation_length, stable_sort_perm. Qed.

Lemma stable_sort_In x l : In x (stable_sort l) <-> In x l.
Proof.
  split; apply Permutation_in;
    [apply stable_sort_perm | symmetry; apply stable_sort_perm].
Qed.

Lemma insert_stable_head x l :
  StronglySorted le l -> Forall (le x) l -> insert_stable x l = x :: l.
Proof.
  intros _ H. destruct l as [|y l]; simpl; [reflexivity|].
  inversion H as [|? ? Hxy _]; subst. unfold le in Hxy. now rewrite Hxy.
Qed.

Lemma stable_sort_sorted_id l : StronglySorted le l -> stable_sort l = l.
Proof.
  induction 1 as [|x l Hs IH Hx]; simpl; [reflexivity|].
  rewrite IH. now apply insert_stable_head.
Qed.

Hypothesis leb_total : forall a b, leb a b = true \/ leb b a = true.
Hypothesis leb_trans :
  forall a b c, leb a b = true -> leb b c = true -> leb a c = true.

Lemma insert_stable_sorted x l :
  StronglySorted le l -> StronglySorted le (insert_stable x l).
Proof.
  induction 1 as [|y l Hs IH Hy]; simpl.
  - repeat constructor.
  - destruct (leb x y) eqn:E.
    + constructor; [now constructor|].
      constructor; [exact E|].
      eapply Forall_impl; [|exact Hy]. intros z Hz. eapply leb_trans; eassumption.
    + constructor; [exact IH|].
      assert (Hyx : le y x) by (destruct (leb_total x y); congruence).
      rewrite Forall_forall. intros z Hz.
      apply (Permutation_in _ (insert_stable_perm x l)) in Hz.
      destruct Hz as [<-|Hz]; [exact Hyx|].
      rewrite Forall_forall in Hy. now apply Hy.
Qed.

Lemma stable_sort_sorted l : StronglySorted le (stable_sort l).
Proof.
  induction l as [|x l IH]; simpl; [constructor|].
  now apply insert_stable_sorted.
Qed.

(** Stability: the rows selected by a predicate that cannot tell apart
    rows a comparison puts in both orders come out in input order. *)
Lemma insert_stable_filter (p : A -> bool) x l :
  (forall y, In y l -> p y = true -> leb x y = false -> p x = false) ->
  filter p (insert_stable x l) = filter p (x :: l).
Proof.
  induction l as [|y l IH]; intros Hp; simpl; [reflexivity|].
  destruct (leb x y) eqn:E; [reflexivity|]. simpl.
  destruct (p y) eqn:Py.
  - assert (Px : p x = false) by (apply (Hp y); simpl; auto).
    rewrite IH by (intros; eapply Hp; simpl; eauto).
    simpl. now rewrite Px.
  - rewrite IH by (intros; eapply Hp; simpl; eauto). reflexivity.
Qed.

Lemma stable_sort_filter (p : A -> bool) l :
  (forall x y, p x = true -> p y = true -> leb x y = true) ->
  filter p (stable_sort l) = filter p l.
Proof.
  intros Hp. induction l as [|x l IH]; simpl; [reflexivity|].
  rewrite insert_stable_filter.
  - simpl. now rewrite IH.
  - intros y _ Py E. destruct (p x) eqn:Px; [|reflexivity].
    rewrite (Hp x y Px Py) in E. discriminate.
Qed.

Lemma leb_total_refl a : leb a a = true.
Proof. destruct (leb_total a a); assumption. Qed.

Lemma same_key_refl a : same_key leb a a = true.
Proof. unfold same_key. now rewrite leb_total_refl. Qed.

Lemma same_key_sym a b : same_key leb a b = same_key leb b a.
Proof. unfold same_key. apply andb_comm. Qed.

Lemma same_key_trans a b c :
  same_key leb a b = true -> same_key leb b c = true ->
  same_key leb a c = true.
Proof.
  unfold same_key. rewrite !andb_true_iff. intros [H1 H2] [H3 H4].
  split; eapply leb_trans; eassumption.
Qed.

Lemma same_key_congr a b x :
  same_key leb a b = true -> same_key leb x a = same_key leb x b.
Proof.
  intros H. destruct (same_key leb x b) eqn:E.
  - eapply same_key_trans; [exact E|]. now rewrite same_key_sym.
  - destruct (same_key leb x a) eqn:E'; [|reflexivity].
    rewrite (same_key_trans _ _ _ E' H) in E. discriminate.
Qed.

Lemma stable_sort_is_stable_sort l : is_stable_sort leb l (stable_sort l).
Proof.
  split; [apply stable_sort_sorted|].
  intros a. apply stable_sort_filter. intros x y Hx Hy.
  assert (H : same_key leb x y = true).
  { eapply same_key_trans; [|exact Hy]. now rewrite same_key_sym. }
  unfold same_key in H. now apply andb_true_iff in H.
Qed.

(** The head of a sorted list is below every row of a list holding the
    same rows. *)
Lemma sorted_head_le x l y l' :
  StronglySorted le (x :: l) ->
  filter (same_key leb y) (x :: l) = filter (same_key leb y) (y :: l') ->
  leb x y = true.
Proof.
  intros Hs Hf.
  assert (Hy : In y (filter (same_key leb y) (x :: l))).
  { rewrite Hf. simpl. rewrite same_key_refl. now left. }
  apply filter_In in Hy. destruct Hy as [[<-|Hy] _]; [apply leb_total_refl|].
  apply StronglySorted_inv in Hs. destruct Hs as [_ Hx].
  rewrite Forall_forall in Hx. now apply Hx.
Qed.

Lemma sorted_same_filters_eq l1 :
  forall l2,
    StronglySorted le l1 -> StronglySorted le l2 ->
    (forall a, filter (same_key leb a) l1 = filter (same_key leb a) l2) ->
    l1 = l2.
Proof.
  induction l1 as [|x l1 IH]; intros [|y l2] H1 H2 Hf.
  - reflexivity.
  - specialize (Hf y). simpl in Hf. rewrite same_key_refl in Hf. discriminate.
  - specialize (Hf x). simpl in Hf. rewrite same_key_refl in Hf. discriminate.
  - assert (Hxy : same_key leb x y = true).
    { unfold same_key. apply andb_true_iff. split.
      - eapply sorted_head_le; [exact H1|apply Hf].
      - eapply sorted_head_le; [exact H2|symmetry; apply Hf]. }
    pose proof (Hf x) as Hx. simpl in Hx.
    rewrite same_key_refl, Hxy in Hx. injection Hx as -> Hx.
    f_equal. apply IH.
    + now apply StronglySorted_inv in H1.
    + now apply StronglySorted_inv in H2.
    + intros a. specialize (Hf a). simpl in Hf.
      destruct (same_key leb a y); [now injection Hf|exact Hf].
Qed.

(** Every stable sorting algorithm returns what [stable_sort] returns. *)
Lemma stable_sort_unique l l' :
  is_stable_sort leb l l' -> l' = stable_sort l.
Proof.
  intros [Hs Hf]. apply sorted_same_filters_eq.
  - exact Hs.
  - apply stable_sort_sorted.
  - intros a. rewrite Hf. symmetry.
    apply (proj2 (stable_sort_is_stable_sort l)).
Qed.

End StableSort.

(* ================================================================== *)
(** ** Properties of duplicate removal *)

Section DropDuplicates.

Variable A : Type.
Variable eqb : A -> A -> bool.
Hypothesis eqb_eq : forall a b, eqb a b = true <-> a = b.

Lemma mem_In x l : mem eqb x l = true <-> In x l.
Proof.
  unfold mem. rewrite existsb_exists. split.
  - intros [y [Hy E]]. apply eqb_eq in E. now subst.
  - intros H. exists x. split; [exact H|]. now apply eqb_eq.
Qed.

Lemma mem_false x l : mem eqb x l = false <-> ~ In x l.
Proof.
  rewrite <- mem_In. destruct (mem eqb x l); intuition congruence.
Qed.

Lemma drop_seen_In seen l x :
  In x (drop_seen eqb seen l) <-> In x l /\ ~ In x seen.
Proof.
  revert seen. induction l as [|y l IH]; intros seen; simpl; [tauto|].
  destruct (mem eqb y seen) eqn:E.
  - apply mem_In in E. rewrite IH. intuition (subst; tauto).
  - apply mem_false in E. simpl. rewrite IH. simpl.
    split.
    + intros [->|[H1 H2]]; [tauto|]. tauto.
    + intros [[->|H1] H2]; [tauto|].
      destruct (mem eqb x [y]) eqn:M.
      * apply mem_In in M. simpl in M. left. tauto.
      * apply mem_false in M. simpl in M. right. tauto.
Qed.

Lemma drop_seen_NoDup seen l : NoDup (drop_seen eqb seen l).
Proof.
  revert seen. induction l as [|y l IH]; intros seen; simpl; [constructor|].
  destruct (mem eqb y seen); [apply IH|].
  constructor; [|apply IH].
  rewrite drop_seen_In. simpl. tauto.
Qed.

(** A list without duplicates, none of them seen, is kept whole. *)
Lemma drop_seen_NoDup_id seen l :
  NoDup l -> (forall x, In x l -> ~ In x seen) -> drop_seen eqb seen l = l.
Proof.
  intros Hn. revert seen. induction Hn as [|y l Hy Hn IH]; intros seen Hs;
    simpl; [reflexivity|].
  assert (E : mem eqb y seen = false) by (apply mem_false, Hs; now left).
  rewrite E. f_equal. apply IH. intros x Hx [<-|Hin]; [tauto|].
  apply (Hs x); [now right|exact Hin].
Qed.

(** The rows are taken in order, a row being kept exactly when it was
    not met before. *)
Lemma drop_seen_app seen l1 l2 :
  drop_seen eqb seen (l1 ++ l2) =
  drop_seen eqb seen l1 ++ drop_seen eqb (rev l1 ++ seen) l2.
Proof.
  revert seen. induction l1 as [|y l1 IH]; intros seen; simpl; [reflexivity|].
  assert (Hext : forall s1 s2 l, (forall x, In x s1 <-> In x s2) ->
                                 drop_seen eqb s1 l = drop_seen eqb s2 l).
  { clear - eqb_eq. intros s1 s2 l. revert s1 s2.
    induction l as [|z l IHl]; intros s1 s2 H; simpl; [reflexivity|].
    assert (M : mem eqb z s1 = mem eqb z s2).
    { destruct (mem eqb z s2) eqn:E.
      - apply mem_In. apply H. now apply mem_In.
      - apply mem_false. rewrite H. now apply mem_false. }
    rewrite M. destruct (mem eqb z s2); [now apply IHl|].
    f_equal. apply IHl. intros x. simpl. rewrite H. tauto. }
  destruct (mem eqb y seen) eqn:E.
  - rewrite IH. f_equal. apply Hext. intros x.
    rewrite !in_app_iff. simpl. apply mem_In in E.
    intuition (subst; tauto).
  - simpl. f_equal. rewrite IH. f_equal. apply Hext. intros x.
    rewrite !in_app_iff. simpl. tauto.
Qed.

Lemma unique_In l x : In x (unique eqb l) <-> In x l.
Proof. unfold unique. rewrite drop_seen_In. simpl. tauto. Qed.

Lemma unique_NoDup l : NoDup (unique eqb l).
Proof. apply drop_seen_NoDup. Qed.

Lemma unique_NoDup_id l : NoDup l -> unique eqb l = l.
Proof. intros H. apply drop_seen_NoDup_id; [exact H|]. intros x _ []. Qed.

Lemma unique_idempotent l : unique eqb (unique eqb l) = unique eqb l.
Proof. apply unique_NoDup_id, unique_NoDup. Qed.

(** First occurrence kept, order kept: a row appended to the table is
    appended to the result when it is new, and dropped otherwise. *)
Lemma unique_snoc l x :
  unique eqb (l ++ [x]) = if mem eqb x l then unique eqb l else unique eqb l ++ [x].
Proof.
  unfold unique. rewrite drop_seen_app. simpl.
  rewrite app_nil_r.
  assert (M : mem eqb x (rev l) = mem eqb x l).
  { destruct (mem eqb x l) eqn:E.
    - apply mem_In. rewrite <- in_rev. now apply mem_In.
    - apply mem_false. rewrite <- in_rev. now apply mem_false. }
  rewrite M. destruct (mem eqb x l); [apply app_nil_r|reflexivity].
Qed.

Lemma unique_sorted (R : A -> A -> Prop) l :
  StronglySorted R l -> StronglySorted R (unique eqb l).
Proof.
  unfold unique. generalize (@nil A) as seen.
  induction l as [|y l IH]; intros seen Hs; simpl; [constructor|].
  apply StronglySorted_inv in Hs. destruct Hs as [Hs Hy].
  destruct (mem eqb y seen); [now apply IH|].
  constructor; [now apply IH|].
  rewrite Forall_forall in *. intros x Hx.
  apply drop_seen_In in Hx. apply Hy. tauto.
Qed.

End DropDuplicates.

(* ================================================================== *)
(** ** The junction order and the junction equality *)

Lemma junction_eqb_eq (a b : Junction) : junction_eqb a b = true <-> a = b.
Proof.
  destruct a as [[[c1 s1] e1] d1], b as [[[c2 s2] e2] d2]. simpl.
  rewrite !andb_true_iff, !String.eqb_eq, !Z.eqb_eq.
  split; [intros [[[-> ->] ->] ->]; reflexivity|].
  intros E. inversion E. auto.
Qed.

Lemma junction_key_leb_total (a b : Junction) :
  junction_key_leb a b = true \/ junction_key_leb b a = true.
Proof.
  destruct a as [[[c1 s1] e1] d1], b as [[[c2 s2] e2] d2]. simpl.
  destruct (StrOrd.trichotomy c1 c2) as [H|[->|H]].
  - left. now rewrite H.
  - rewrite String.eqb_refl, !andb_true_l, !orb_true_iff, !Z.leb_le. lia.
  - right. now rewrite H.
Qed.

Lemma junction_key_leb_trans (a b c : Junction) :
  junction_key_leb a b = true -> junction_key_leb b c = true ->
  junction_key_leb a c = true.
Proof.
  destruct a as [[[c1 s1] e1] d1], b as [[[c2 s2] e2] d2],
           c as [[[c3 s3] e3] d3]. simpl.
  rewrite !orb_true_iff, !andb_true_iff, !String.eqb_eq, !Z.leb_le.
  intros [H1|[-> H1]] [H2|[-> H2]].
  - left. eapply StrOrd.ltb_trans; eassumption.
  - now left.
  - now left.
  - right. split; [reflexivity|lia].
Qed.

Lemma junction_key_leb_key_le (a b : Junction) :
  junction_key_leb a b = true <->
  key_le (junction_chromosome a) (junction_start a)
         (junction_chromosome b) (junction_start b).
Proof.
  destruct a as [[[c1 s1] e1] d1], b as [[[c2 s2] e2] d2]. simpl.
  unfold key_le.
  now rewrite orb_true_iff, andb_true_iff, String.eqb_eq, Z.leb_le.
Qed.

Lemma unique_first_occurrences (l : list Junction) :
  first_occurrences l (unique junction_eqb l).
Proof.
  induction l as [|x l IH] using rev_ind; [constructor|].
  rewrite (@unique_snoc _ _ junction_eqb_eq).
  destruct (mem junction_eqb x l) eqn:E.
  - constructor; [exact IH|]. now apply (@mem_In _ _ junction_eqb_eq).
  - constructor; [exact IH|]. now apply (@mem_false _ _ junction_eqb_eq).
Qed.

Lemma first_occurrences_functional (A : Type) (l l1 l2 : list A) :
  first_occurrences l l1 -> first_occurrences l l2 -> l1 = l2.
Proof.
  intros H1. revert l2.
  induction H1 as [|l l' x H1 IH Hin|l l' x H1 IH Hin]; intros l2 H2.
  - inversion H2 as [|l0 ? y ? ? E|l0 ? y ? ? E]; [reflexivity| |];
      destruct l0; discriminate.
  - inversion H2 as [E|l0 ? y H3 Hy E|l0 ? y H3 Hy E].
    + destruct l; discriminate.
    + apply app_inj_tail in E. destruct E as [-> ->]. now apply IH.
    + apply app_inj_tail in E. destruct E as [-> ->]. tauto.
  - inversion H2 as [E|l0 ? y H3 Hy E|l0 ? y H3 Hy E].
    + destruct l; discriminate.
    + apply app_inj_tail in E. destruct E as [-> ->]. tauto.
    + apply app_inj_tail in E. destruct E as [-> ->]. f_equal. now apply IH.
Qed.

Lemma StronglySorted_adjacent (A : Type) (R : A -> A -> Prop) (l : list A) :
  StronglySorted R l ->
  forall i a b, nth_error l i = Some a -> nth_error l (S i) = Some b -> R a b.
Proof.
  induction 1 as [|x l Hs IH Hx]; intros i a b Ha Hb.
  - destruct i; discriminate.
  - destruct i as [|i]; simpl in *.
    + injection Ha as <-. rewrite Forall_forall in Hx. apply Hx.
      destruct l; [discriminate|]. simpl in Hb. injection Hb as <-. now left.
    + eapply IH; eassumption.
Qed.


(* ================================================================== *)
(** ** Comprehensions that may raise *)

Lemma mapM_Ok_Forall2 (A B : Type) (f : A -> result B) (l : list A) :
  forall l', mapM f l = Ok l' -> Forall2 (fun a b => f a = Ok b) l l'.
Proof.
  induction l as [|a l IH]; simpl; intros l' H.
  - injection H as <-. constructor.
  - destruct (f a) as [b|e] eqn:Ha; simpl in H; [|discriminate].
    destruct (mapM f l) as [bs|e]; simpl in H; [|discriminate].
    injection H as <-. constructor; [exact Ha|now apply IH].
Qed.

Lemma mapM_Ok_In (A B : Type) (f : A -> result B) (l : list A) (l' : list B) :
  mapM f l = Ok l' ->
  forall b, In b l' -> exists a, In a l /\ f a = Ok b.
Proof.
  intros H. apply mapM_Ok_Forall2 in H.
  induction H as [|a b l l' Hab H IH]; intros y Hy; [destruct Hy|].
  destruct Hy as [<-|Hy].
  - exists a. split; [now left|exact Hab].
  - destruct (IH y Hy) as [x [Hx Hfx]]. exists x. split; [now right|exact Hfx].
Qed.

Lemma mapM_Raise_In (A B : Type) (f : A -> result B) (l : list A) (e : exn) :
  mapM f l = Raise e -> exists a, In a l /\ f a = Raise e.
Proof.
  induction l as [|a l IH]; simpl; [discriminate|].
  destruct (f a) as [b|e'] eqn:Ha; simpl.
  - destruct (mapM f l) as [bs|e'']; simpl; [discriminate|].
    intros H. injection H as ->. destruct IH as [x [Hx Hfx]]; [reflexivity|].
    exists x. split; [now right|exact Hfx].
  - intros H. injection H as ->. exists a. split; [now left|exact Ha].
Qed.

Lemma mapM_all_Ok (A B : Type) (f : A -> result B) (l : list A) :
  (forall a, In a l -> exists b, f a = Ok b) -> exists l', mapM f l = Ok l'.
Proof.
  induction l as [|a l IH]; intros H; simpl.
  - now exists [].
  - destruct (H a) as [b Hb]; [now left|]. rewrite Hb. simpl.
    destruct IH as [bs Hbs]; [intros x Hx; apply H; now right|].
    rewrite Hbs. simpl. now exists (b :: bs).
Qed.

Lemma mapM_some_Raise (A B : Type) (f : A -> result B) (l : list A) :
  (exists a e, In a l /\ f a = Raise e) -> exists e, mapM f l = Raise e.
Proof.
  intros [a [e [Ha He]]].
  destruct (mapM f l) as [l'|e'] eqn:E; [|now exists e'].
  apply mapM_Ok_Forall2 in E. exfalso.
  induction E as [|x y l l' Hxy E IH]; [destruct Ha|].
  destruct Ha as [->|Ha]; [congruence|now apply IH].
Qed.

(* ================================================================== *)
(** ** Properties of [groupby] *)

Lemma string_eqb_eq (a b : string) : String.eqb a b = true <-> a = b.
Proof. apply String.eqb_eq. Qed.

Lemma option_string_eqb_eq (o : option string) (k : string) :
  option_string_eqb o k = true <-> o = Some k.
Proof.
  destruct o as [t|]; simpl.
  - rewrite String.eqb_eq. split; congruence.
  - split; discriminate.
Qed.

Lemma present_ids_In (rs : list Row) (k : string) :
  In k (present_ids rs) <-> exists r, In r rs /\ transcript_id r = Some k.
Proof.
  induction rs as [|r rs IH]; simpl.
  - split; [tauto|]. intros [r [[] _]].
  - destruct (transcript_id r) as [t|] eqn:E; simpl; rewrite IH; split.
    + intros [<-|[x [Hx Hk]]]; [exists r; auto|exists x; auto].
    + intros [x [[<-|Hx] Hk]]; [left; congruence|right; exists x; auto].
    + intros [x [Hx Hk]]. exists x; auto.
    + intros [x [[<-|Hx] Hk]]; [congruence|exists x; auto].
Qed.

Lemma present_ids_dropna (rs : list Row) :
  present_ids (filter has_transcript_id rs) = present_ids rs.
Proof.
  induction rs as [|r rs IH]; simpl; [reflexivity|].
  unfold has_transcript_id at 1.
  destruct (transcript_id r) as [t|] eqn:E; simpl; [|exact IH].
  now rewrite E, IH.
Qed.

Lemma group_rows_In (k : string) (rs : list Row) (r : Row) :
  In r (group_rows k rs) <-> In r rs /\ transcript_id r = Some k.
Proof. unfold group_rows. now rewrite filter_In, option_string_eqb_eq. Qed.

Lemma group_rows_dropna (k : string) (rs : list Row) :
  group_rows k (filter has_transcript_id rs) = group_rows k rs.
Proof.
  unfold group_rows. induction rs as [|r rs IH]; simpl; [reflexivity|].
  unfold has_transcript_id at 1.
  destruct (transcript_id r) as [t|] eqn:E; simpl; [|exact IH].
  rewrite E. simpl. now rewrite IH.
Qed.

Lemma group_keys_In (rs : list Row) (k : string) :
  In k (group_keys rs) <-> exists r, In r rs /\ transcript_id r = Some k.
Proof.
  unfold group_keys.
  now rewrite stable_sort_In, (@unique_In _ _ string_eqb_eq), present_ids_In.
Qed.

Lemma group_keys_NoDup (rs : list Row) : NoDup (group_keys rs).
Proof.
  unfold group_keys.
  eapply Permutation_NoDup; [symmetry; apply stable_sort_perm|].
  apply (@unique_NoDup _ _ string_eqb_eq).
Qed.

Lemma group_keys_sorted (rs : list Row) :
  StronglySorted (le String.leb) (group_keys rs).
Proof.
  apply stable_sort_sorted.
  - apply String.leb_total.
  - apply StrOrd.leb_trans.
Qed.

Lemma group_keys_dropna (rs : list Row) :
  group_keys (filter has_transcript_id rs) = group_keys rs.
Proof. unfold group_keys. now rewrite present_ids_dropna. Qed.

Lemma groupby_dropna (gtf : DataFrame) :
  groupby_transcript_id (dropna_transcript_id gtf) = groupby_transcript_id gtf.
Proof.
  unfold groupby_transcript_id, dropna_transcript_id, has_column.
  cbn [rows columns].
  destruct (existsb _ (columns gtf)); [|reflexivity].
  rewrite group_keys_dropna. f_equal. apply map_ext. intros k.
  now rewrite group_rows_dropna.
Qed.

Lemma groupby_Ok_inv (gtf : DataFrame) (groups : list (string * DataFrame)) :
  groupby_transcript_id gtf = Ok groups ->
  has_column gtf "transcript_id" = true /\
  groups = map (fun k => (k, mkFrame (columns gtf) (group_rows k (rows gtf))))
               (group_keys (rows gtf)).
Proof.
  unfold groupby_transcript_id.
  destruct (has_column gtf "transcript_id"); [|discriminate].
  intros H. injection H as <-. now split.
Qed.

Lemma groupby_In (gtf : DataFrame) (groups : list (string * DataFrame))
  (k : string) (df : DataFrame) :
  groupby_transcript_id gtf = Ok groups ->
  In (k, df) groups ->
  In k (group_keys (rows gtf)) /\
  df = mkFrame (columns gtf) (group_rows k (rows gtf)).
Proof.
  intros H Hin. apply groupby_Ok_inv in H. destruct H as [_ ->].
  apply in_map_iff in Hin. destruct Hin as [k' [E Hk]].
  injection E as -> <-. now split.
Qed.

Lemma groupby_keys (gtf : DataFrame) (groups : list (string * DataFrame)) :
  groupby_transcript_id gtf = Ok groups ->
  map fst groups = group_keys (rows gtf).
Proof.
  intros H. apply groupby_Ok_inv in H. destruct H as [_ ->].
  rewrite map_map. simpl. apply map_id.
Qed.

(* ================================================================== *)
(** ** Sorting and deduplication of the junction table *)

Lemma sort_dedup_sorted (df : Frame Junction) :
  StronglySorted (le junction_key_leb) (rows (sort_dedup df)).
Proof.
  simpl. apply (@unique_sorted _ _ junction_eqb_eq), stable_sort_sorted.
  - apply junction_key_leb_total.
  - apply junction_key_leb_trans.
Qed.

Lemma sort_dedup_NoDup (df : Frame Junction) : NoDup (rows (sort_dedup df)).
Proof. simpl. apply (@unique_NoDup _ _ junction_eqb_eq). Qed.

Lemma sort_values_is_stable_sort (df : Frame Junction) :
  is_stable_sort junction_key_leb (rows df) (rows (sort_values df)).
Proof.
  apply stable_sort_is_stable_sort.
  - apply junction_key_leb_total.
  - apply junction_key_leb_trans.
Qed.

Lemma select_starts_nth (df : Frame Junction) (i : nat) :
  nth_error (rows (select_starts df)) i =
  option_map start_site (nth_error (rows df) i).
Proof. simpl. apply nth_error_map. Qed.

Lemma select_ends_nth (df : Frame Junction) (i : nat) :
  nth_error (rows (select_ends df)) i =
  option_map end_site (nth_error (rows df) i).
Proof. simpl. apply nth_error_map. Qed.

(** C8. The sort-then-dedup step is idempotent: sorting the junction
    table by (chromosome, start) and removing exact duplicate rows, done
    twice, gives the table that doing it once gives. *)
Theorem C8_sort_dedup_idempotent (df : Frame Junction) :
  sort_dedup (sort_dedup df) = sort_dedup df.
Proof.
  unfold sort_dedup at 1. unfold drop_duplicates, sort_values.
  cbn [rows columns].
  pose proof (sort_dedup_sorted df) as Hs.
  pose proof (sort_dedup_NoDup df) as Hn.
  rewrite (stable_sort_sorted_id Hs).
  rewrite (@unique_NoDup_id _ _ junction_eqb_eq _ Hn).
  now destruct (sort_dedup df).
Qed.

(* ================================================================== *)
(** ** The pipeline, for any transcript module *)

Section PipelineProperties.

Variable Transcript : Type.
Variable from_gtf_df : DataFrame -> result Transcript.
Variable introns : Transcript -> result (list genome.Interval).

Lemma junction_table_inv (gtf : DataFrame) (df : Frame Junction) :
  junction_table from_gtf_df introns gtf = Ok df ->
  exists ts accumulated,
    transcripts from_gtf_df gtf = Ok ts /\
    junctions introns ts = Ok accumulated /\
    df = sort_dedup (mkFrame junction_columns accumulated).
Proof.
  unfold junction_table.
  destruct (transcripts from_gtf_df gtf) as [ts|e] eqn:T; simpl;
    [|discriminate].
  destruct (junctions introns ts) as [accumulated|e] eqn:J; simpl;
    [|discriminate].
  intros E. injection E as <-. exists ts, accumulated.
  split; [reflexivity|]. split; [exact J|reflexivity].
Qed.

Lemma generate_splice_sites_inv (gtf : DataFrame) (starts ends : Frame Site) :
  generate_splice_sites from_gtf_df introns gtf = Ok (starts, ends) ->
  exists df, junction_table from_gtf_df introns gtf = Ok df /\
             starts = select_starts df /\ ends = select_ends df.
Proof.
  unfold generate_splice_sites.
  destruct (junction_table from_gtf_df introns gtf) as [df|e]; simpl;
    [|discriminate].
  intros E. injection E as <- <-. now exists df.
Qed.

Lemma generate_splice_sites_Raise (gtf : DataFrame) (e : exn) :
  generate_splice_sites from_gtf_df introns gtf = Raise e <->
  transcripts from_gtf_df gtf = Raise e \/
  exists ts, transcripts from_gtf_df gtf = Ok ts /\
             junctions introns ts = Raise e.
Proof.
  unfold generate_splice_sites, junction_table.
  destruct (transcripts from_gtf_df gtf) as [ts|e']; simpl.
  - destruct (junctions introns ts) as [accumulated|e'] eqn:J; simpl.
    + split; [discriminate|].
      intros [H|[ts' [H1 H2]]]; [discriminate|]. congruence.
    + split.
      * intros H. right. exists ts. split; [reflexivity|congruence].
      * intros [H|[ts' [H1 H2]]]; [discriminate|]. congruence.
  - split; [intros H; left; congruence|].
    intros [H|[ts' [H1 H2]]]; [congruence|discriminate].
Qed.

Lemma generate_splice_sites_Ok (gtf : DataFrame)
  (ts : list (string * Transcript)) (accumulated : list Junction) :
  transcripts from_gtf_df gtf = Ok ts ->
  junctions introns ts = Ok accumulated ->
  generate_splice_sites from_gtf_df introns gtf =
  (let df := sort_dedup (mkFrame junction_columns accumulated) in
   Ok (select_starts df, select_ends df)).
Proof.
  unfold generate_splice_sites, junction_table. intros Ht Hj.
  rewrite Ht. simpl. now rewrite Hj.
Qed.

(** C1. When [generate_splice_sites] returns, the junction table it
    projects is the accumulated intron sequence stably sorted by
    (chromosome, start), a permutation of it, from which the rows equal
    to a row above them were removed, the first occurrences staying in
    their order; adjacent rows of that table, and of the start-sites
    output, are in non-decreasing (chromosome, start) order. *)
Theorem C1_sorted_then_deduplicated
  (gtf : DataFrame) (starts ends : Frame Site)
  (Hrun : generate_splice_sites from_gtf_df introns gtf = Ok (starts, ends)) :
  exists ts df accumulated,
    transcripts from_gtf_df gtf = Ok ts /\
    junctions introns ts = Ok accumulated /\
    junction_table from_gtf_df introns gtf = Ok df /\
    starts = select_starts df /\ ends = select_ends df /\
    let sorted := rows (sort_values (mkFrame junction_columns accumulated)) in
    is_stable_sort junction_key_leb accumulated sorted /\
    Permutation sorted accumulated /\
    first_occurrences sorted (rows df) /\
    (forall i a b,
        nth_error (rows df) i = Some a ->
        nth_error (rows df) (S i) = Some b ->
        key_le (junction_chromosome a) (junction_start a)
               (junction_chromosome b) (junction_start b)) /\
    (forall i a b,
        nth_error (rows starts) i = Some a ->
        nth_error (rows starts) (S i) = Some b ->
        key_le (site_chromosome a) (site_position a)
               (site_chromosome b) (site_position b)).
Proof.
  destruct (generate_splice_sites_inv _ Hrun) as [df [Hdf [-> ->]]].
  destruct (junction_table_inv _ Hdf) as [ts [accumulated [Hts [Hacc ->]]]].
  exists ts, (sort_dedup (mkFrame junction_columns accumulated)), accumulated.
  split; [exact Hts|]. split; [exact Hacc|]. split; [exact Hdf|].
  split; [reflexivity|]. split; [reflexivity|].
  cbv zeta. split; [|split; [|split; [|split]]].
  - apply (sort_values_is_stable_sort
             (mkFrame junction_columns accumulated)).
  - simpl. apply stable_sort_perm.
  - simpl. apply unique_first_occurrences.
  - intros i a b Ha Hb. apply junction_key_leb_key_le.
    exact (StronglySorted_adjacent (sort_dedup_sorted _) _ Ha Hb).
  - intros i a b. rewrite !select_starts_nth.
    destruct (nth_error _ i) as [x|] eqn:Hx; [|discriminate].
    destruct (nth_error _ (S i)) as [y|] eqn:Hy; [|discriminate].
    simpl. intros Ha Hb. injection Ha as <-. injection Hb as <-.
    pose proof (StronglySorted_adjacent (sort_dedup_sorted _) _ Hx Hy) as H.
    apply junction_key_leb_key_le in H.
    destruct x as [[[c1 s1] e1] d1], y as [[[c2 s2] e2] d2]. exact H.
Qed.

(** C4. The two outputs are the column projections
    [[Chromosome, Start, Strand]] and [[Chromosome, End, Strand]] of the
    one deduplicated junction table, row for row and with nothing
    removed: two distinct rows of the junction table, also when they
    share chromosome, start and strand, are two rows of the start-sites
    view, and likewise of the end-sites view. *)
Theorem C4_views_are_projections
  (gtf : DataFrame) (starts ends : Frame Site)
  (Hrun : generate_splice_sites from_gtf_df introns gtf = Ok (starts, ends)) :
  exists df,
    junction_table from_gtf_df introns gtf = Ok df /\
    NoDup (rows df) /\
    starts = mkFrame ["Chromosome"; "Start"; "Strand"]
                     (map start_site (rows df)) /\
    ends = mkFrame ["Chromosome"; "End"; "Strand"]
                   (map end_site (rows df)) /\
    length (rows starts) = length (rows df) /\
    length (rows ends) = length (rows df) /\
    forall i j a b,
      i <> j ->
      nth_error (rows df) i = Some a ->
      nth_error (rows df) j = Some b ->
      a <> b /\
      nth_error (rows starts) i = Some (start_site a) /\
      nth_error (rows starts) j = Some (start_site b) /\
      nth_error (rows ends) i = Some (end_site a) /\
      nth_error (rows ends) j = Some (end_site b).
Proof.
  destruct (generate_splice_sites_inv _ Hrun) as [df [Hdf [-> ->]]].
  exists df.
  assert (Hn : NoDup (rows df)).
  { destruct (junction_table_inv _ Hdf) as [ts [accumulated [_ [_ ->]]]].
    apply sort_dedup_NoDup. }
  split; [exact Hdf|]. split; [exact Hn|].
  split; [reflexivity|]. split; [reflexivity|].
  split; [simpl; apply length_map|]. split; [simpl; apply length_map|].
  intros i j a b Hij Ha Hb.
  rewrite !select_starts_nth, !select_ends_nth, Ha, Hb. simpl.
  split; [|now repeat split].
  intros ->. rewrite NoDup_nth_error in Hn. apply Hij. apply Hn.
  - apply nth_error_Some. congruence.
  - congruence.
Qed.

(** C10. The two outputs have the same number of rows, and row [i] of
    the one and row [i] of the other carry the same chromosome and the
    same strand, both being projections of row [i] of the junction
    table. *)
Theorem C10_views_aligned
  (gtf : DataFrame) (starts ends : Frame Site)
  (Hrun : generate_splice_sites from_gtf_df introns gtf = Ok (starts, ends)) :
  length (rows starts) = length (rows ends) /\
  (forall i a b,
      nth_error (rows starts) i = Some a ->
      nth_error (rows ends) i = Some b ->
      site_chromosome a = site_chromosome b /\
      site_strand a = site_strand b) /\
  exists df,
    junction_table from_gtf_df introns gtf = Ok df /\
    forall i,
      nth_error (rows starts) i = option_map start_site (nth_error (rows df) i) /\
      nth_error (rows ends) i = option_map end_site (nth_error (rows df) i).
Proof.
  destruct (generate_splice_sites_inv _ Hrun) as [df [Hdf [-> ->]]].
  split; [|split].
  - simpl. now rewrite !length_map.
  - intros i a b. rewrite select_starts_nth, select_ends_nth.
    destruct (nth_error (rows df) i) as [[[[c s] e] d]|]; simpl;
      [|discriminate].
    intros Ha Hb. injection Ha as <-. injection Hb as <-. now split.
  - exists df. split; [exact Hdf|]. intros i.
    split; [apply select_starts_nth|apply select_ends_nth].
Qed.

(** The function is one of its runs. *)
Lemma generate_splice_sites_runs (gtf : DataFrame) :
  generate_splice_sites_run from_gtf_df introns gtf
    (generate_splice_sites from_gtf_df introns gtf).
Proof.
  unfold generate_splice_sites, junction_table.
  destruct (transcripts from_gtf_df gtf) as [ts|e] eqn:Hts; simpl.
  - destruct (junctions introns ts) as [accumulated|e] eqn:Hacc; simpl.
    + apply run_return
        with (ts := ts) (accumulated := accumulated)
             (sorted := stable_sort junction_key_leb accumulated);
        [exact Hts|exact Hacc|].
      apply (sort_values_is_stable_sort
               (mkFrame junction_columns accumulated)).
    + now apply run_raise_introns with (ts := ts).
  - now apply run_raise.
Qed.

(** Every run ends as the function does, whatever stable sorting
    algorithm it sorts with. *)
Lemma generate_splice_sites_run_eq
  (gtf : DataFrame) (r : result (Frame Site * Frame Site)) :
  generate_splice_sites_run from_gtf_df introns gtf r ->
  r = generate_splice_sites from_gtf_df introns gtf.
Proof.
  intros [e He|ts e Hts He|ts accumulated sorted Hts Hacc Hsort];
    unfold generate_splice_sites, junction_table.
  - now rewrite He.
  - rewrite Hts. simpl. now rewrite He.
  - rewrite Hts. simpl. rewrite Hacc. simpl.
    apply stable_sort_unique in Hsort.
    + now rewrite Hsort.
    + apply junction_key_leb_total.
    + apply junction_key_leb_trans.
Qed.

(** C9. The pipeline is deterministic: two runs of
    [generate_splice_sites] on one table, each sorting with a stable
    algorithm of its own, end with the same result, the same exception
    or the same two output tables with the same rows in the same order;
    it is the result the function computes. *)
Theorem C9_deterministic
  (gtf : DataFrame) (r1 r2 : result (Frame Site * Frame Site))
  (H1 : generate_splice_sites_run from_gtf_df introns gtf r1)
  (H2 : generate_splice_sites_run from_gtf_df introns gtf r2) :
  r1 = r2 /\ r1 = generate_splice_sites from_gtf_df introns gtf.
Proof.
  apply generate_splice_sites_run_eq in H1, H2. split; congruence.
Qed.

End PipelineProperties.

(* ================================================================== *)
(** ** Gene-level rows and the exceptions of the function *)

Section GeneRows.

Variable Transcript : Type.
Variable from_gtf_df : DataFrame -> result Transcript.
Variable introns : Transcript -> result (list genome.Interval).

Lemma transcripts_dropna (gtf : DataFrame) :
  transcripts from_gtf_df (dropna_transcript_id gtf) =
  transcripts from_gtf_df gtf.
Proof. unfold transcripts. now rewrite groupby_dropna. Qed.

Lemma generate_splice_sites_dropna (gtf : DataFrame) :
  generate_splice_sites from_gtf_df introns (dropna_transcript_id gtf) =
  generate_splice_sites from_gtf_df introns gtf.
Proof.
  unfold generate_splice_sites, junction_table.
  now rewrite transcripts_dropna.
Qed.



(** A transcript of the mapping was built from the partition of its
    key. *)
Lemma transcripts_In (gtf : DataFrame) (ts : list (string * Transcript))
  (k : string) (t : Transcript) :
  transcripts from_gtf_df gtf = Ok ts -> In (k, t) ts ->
  exists groups df,
    groupby_transcript_id gtf = Ok groups /\ In (k, df) groups /\
    from_gtf_df df = Ok t.
Proof.
  unfold transcripts.
  destruct (groupby_transcript_id gtf) as [groups|e]; simpl; [|discriminate].
  intros H Hin. destruct (mapM_Ok_In _ _ H _ Hin) as [[k' df] [Hg Hf]].
  simpl in Hf. destruct (from_gtf_df df) as [t'|e] eqn:E; simpl in Hf;
    [|discriminate].
  injection Hf as -> ->. now exists groups, df.
Qed.

Lemma transcripts_Raise (gtf : DataFrame) (e : exn) :
  transcripts from_gtf_df gtf = Raise e ->
  groupby_transcript_id gtf = Raise e \/
  exists groups k df,
    groupby_transcript_id gtf = Ok groups /\ In (k, df) groups /\
    from_gtf_df df = Raise e.
Proof.
  unfold transcripts.
  destruct (groupby_transcript_id gtf) as [groups|e']; simpl;
    [|intros H; left; congruence].
  intros H. right. apply mapM_Raise_In in H. destruct H as [[k df] [Hg Hf]].
  simpl in Hf. destruct (from_gtf_df df) as [t|e'] eqn:E; simpl in Hf;
    [discriminate|].
  injection Hf as ->. now exists groups, k, df.
Qed.

(** What raises in the loop over the transcripts is the reading of the
    introns of one of them. *)
Lemma junctions_Raise (ts : list (string * Transcript)) (e : exn) :
  junctions introns ts = Raise e ->
  exists k t, In (k, t) ts /\ introns t = Raise e.
Proof.
  unfold junctions.
  destruct (mapM (junction_rows introns) ts) as [added|e'] eqn:M; simpl;
    [discriminate|].
  intros H. injection H as ->. apply mapM_Raise_In in M.
  destruct M as [[k t] [Hin Hr]]. unfold junction_rows in Hr. simpl in Hr.
  destruct (introns t) as [xs|e'] eqn:E; simpl in Hr; [discriminate|].
  injection Hr as ->. now exists k, t.
Qed.


(** C6, as the code has it.  A table without the column [transcript_id]
    ends the function at once with the [KeyError] of [groupby].  On a
    table with the column [groupby] raises no such error and the
    function has no check of its own: what it raises was raised in the
    transcript module, building the transcript of a partition or
    reading the introns of a transcript.  Coordinates are not examined:
    two tables with the same columns and the same rows with a
    [transcript_id] end alike, whatever start and end their other rows
    have. *)
Theorem C6_errors_of_generate_splice_sites (gtf : DataFrame) :
  (has_column gtf "transcript_id" = false ->
   generate_splice_sites from_gtf_df introns gtf =
   Raise (KeyError "transcript_id")) /\
  (has_column gtf "transcript_id" = true ->
   (exists groups, groupby_transcript_id gtf = Ok groups) /\
   forall e,
     generate_splice_sites from_gtf_df introns gtf = Raise e ->
     (exists groups k df,
         groupby_transcript_id gtf = Ok groups /\ In (k, df) groups /\
         from_gtf_df df = Raise e) \/
     (exists ts k t,
         transcripts from_gtf_df gtf = Ok ts /\ In (k, t) ts /\
         introns t = Raise e)) /\
  (forall gtf',
      columns gtf' = columns gtf ->
      filter has_transcript_id (rows gtf') =
      filter has_transcript_id (rows gtf) ->
      generate_splice_sites from_gtf_df introns gtf' =
      generate_splice_sites from_gtf_df introns gtf).
Proof.
  split; [|split].
  - intros Hcol. apply generate_splice_sites_Raise. left.
    unfold transcripts, groupby_transcript_id. now rewrite Hcol.
  - intros Hcol. split.
    + unfold groupby_transcript_id. rewrite Hcol. now eexists.
    + intros e He. apply generate_splice_sites_Raise in He.
      destruct He as [He|[ts [Hts He]]].
      * left. apply transcripts_Raise in He. destruct He as [He|He];
          [|exact He].
        unfold groupby_transcript_id in He. rewrite Hcol in He. discriminate.
      * right. apply junctions_Raise in He. destruct He as [k [t [Hin He]]].
        now exists ts, k, t.
  - intros gtf' Hc Hr.
    rewrite <- (generate_splice_sites_dropna gtf'),
            <- (generate_splice_sites_dropna gtf).
    unfold dropna_transcript_id. now rewrite Hc, Hr.
Qed.

End GeneRows.

(* ================================================================== *)
(** ** The transcript builder *)

Module transcript_facts.

Import transcript_utils.

Lemma exon_start_leb_total (a b : Exon) :
  exon_start_leb a b = true \/ exon_start_leb b a = true.
Proof. unfold exon_start_leb. rewrite !Z.leb_le. lia. Qed.

Lemma exon_start_leb_trans (a b c : Exon) :
  exon_start_leb a b = true -> exon_start_leb b c = true ->
  exon_start_leb a c = true.
Proof. unfold exon_start_leb. rewrite !Z.leb_le. lia. Qed.

Lemma is_exon_eq (r : Row) : is_exon r = true <-> Feature r = "exon".
Proof. apply String.eqb_eq. Qed.

Lemma forallb_false_exists (A : Type) (p : A -> bool) (l : list A) :
  forallb p l = false -> exists x, In x l /\ p x = false.
Proof.
  induction l as [|a l IH]; simpl; [discriminate|].
  destruct (p a) eqn:E; simpl.
  - intros H. destruct (IH H) as [x [Hx Hp]]. exists x. auto.
  - intros _. exists a. auto.
Qed.

(** Rows agree when any two of them are on one chromosome and one
    strand. *)
Lemma rows_agree_true (rs : list Row) :
  rows_agree rs = true <->
  forall r1 r2, In r1 rs -> In r2 rs ->
                Chromosome r1 = Chromosome r2 /\ Strand r1 = Strand r2.
Proof.
  destruct rs as [|r0 rest]; simpl.
  - split; [intros _ r1 r2 []|reflexivity].
  - rewrite forallb_forall. split.
    + intros H r1 r2 H1 H2.
      assert (Hr : forall r, r0 = r \/ In r rest ->
                   Chromosome r = Chromosome r0 /\ Strand r = Strand r0).
      { intros r [<-|Hr]; [now split|].
        specialize (H r Hr). apply andb_true_iff in H.
        now rewrite !String.eqb_eq in H. }
      destruct (Hr r1 H1) as [-> ->]. destruct (Hr r2 H2) as [-> ->].
      now split.
    + intros H r Hr. destruct (H r r0) as [-> ->]; auto.
      now rewrite !String.eqb_refl.
Qed.

Lemma rows_agree_false (rs : list Row) :
  rows_agree rs = false <->
  exists r1 r2, In r1 rs /\ In r2 rs /\
                (Chromosome r1 <> Chromosome r2 \/ Strand r1 <> Strand r2).
Proof.
  split.
  - destruct rs as [|r0 rest]; simpl; [discriminate|].
    intros H. apply forallb_false_exists in H. destruct H as [r [Hr Hp]].
    exists r, r0. split; [now right|]. split; [now left|].
    apply andb_false_iff in Hp. rewrite !String.eqb_neq in Hp. exact Hp.
  - intros [r1 [r2 [H1 [H2 Hd]]]].
    destruct (rows_agree rs) eqn:E; [|reflexivity].
    rewrite rows_agree_true in E. destruct (E r1 r2 H1 H2). tauto.
Qed.

Lemma partition_disagrees_rows_agree (df : DataFrame) :
  partition_disagrees df <-> rows_agree (filter is_exon (rows df)) = false.
Proof.
  rewrite rows_agree_false. unfold partition_disagrees.
  split; intros [r1 [r2 H]]; exists r1, r2.
  - rewrite !filter_In, !is_exon_eq. tauto.
  - rewrite !filter_In, !is_exon_eq in H. tauto.
Qed.

Lemma from_gtf_df_Raise (df : DataFrame) (e : exn) :
  from_gtf_df df = Raise e <-> e = MalformedGroupError /\ partition_disagrees df.
Proof.
  rewrite partition_disagrees_rows_agree. unfold from_gtf_df.
  destruct (rows_agree (filter is_exon (rows df))); split.
  - discriminate.
  - intros [_ H]. discriminate.
  - intros H. injection H as <-. now split.
  - intros [-> _]. reflexivity.
Qed.

Lemma from_gtf_df_Ok (df : DataFrame) :
  ~ partition_disagrees df <-> exists t, from_gtf_df df = Ok t.
Proof.
  rewrite partition_disagrees_rows_agree. unfold from_gtf_df.
  destruct (rows_agree (filter is_exon (rows df))); split.
  - intros _. eexists. reflexivity.
  - intros _. discriminate.
  - intros H. now destruct H.
  - intros [t H]. discriminate.
Qed.

Lemma from_gtf_df_exons (df : DataFrame) (t : Transcript) :
  from_gtf_df df = Ok t ->
  exons t = stable_sort exon_start_leb
              (map exon_of_row (filter is_exon (rows df))).
Proof.
  unfold from_gtf_df.
  destruct (rows_agree (filter is_exon (rows df))); [|discriminate].
  intros H. injection H as <-. reflexivity.
Qed.

Lemma gaps_length (c d : string) (es : list Exon) :
  length (gaps c d es) = (length es - 1)%nat.
Proof.
  induction es as [|e1 [|e2 tl] IH]; simpl; try reflexivity.
  simpl in IH. rewrite IH. lia.
Qed.

Lemma gaps_nth (c d : string) (es : list Exon) :
  forall i e1 e2,
    nth_error es i = Some e1 -> nth_error es (S i) = Some e2 ->
    nth_error (gaps c d es) i =
    Some (genome.mkInterval c (exon_end e1) (exon_start e2) d).
Proof.
  induction es as [|a [|b tl] IH]; intros i e1 e2 H1 H2.
  - destruct i; discriminate.
  - destruct i as [|[|i]]; discriminate.
  - destruct i as [|i].
    + simpl in H1, H2. injection H1 as <-. injection H2 as <-. reflexivity.
    + change (nth_error (gaps c d (b :: tl)) i =
              Some (genome.mkInterval c (exon_end e1) (exon_start e2) d)).
      now apply IH.
Qed.

Lemma gaps_nth_inv (c d : string) (es : list Exon) :
  forall i x,
    nth_error (gaps c d es) i = Some x ->
    exists e1 e2,
      nth_error es i = Some e1 /\ nth_error es (S i) = Some e2 /\
      x = genome.mkInterval c (exon_end e1) (exon_start e2) d.
Proof.
  intros i x Hx.
  assert (Hi : (i < length (gaps c d es))%nat)
    by (apply nth_error_Some; congruence).
  rewrite gaps_length in Hi.
  destruct (nth_error es i) as [e1|] eqn:H1;
    [|apply nth_error_None in H1; lia].
  destruct (nth_error es (S i)) as [e2|] eqn:H2;
    [|apply nth_error_None in H2; lia].
  exists e1, e2. split; [reflexivity|]. split; [reflexivity|].
  rewrite (gaps_nth c d es _ H1 H2) in Hx. congruence.
Qed.

Lemma gaps_few (c d : string) (es : list Exon) :
  (length es < 2)%nat -> gaps c d es = [].
Proof.
  intros H. destruct (gaps c d es) as [|x l] eqn:E; [reflexivity|].
  pose proof (gaps_length c d es) as L. rewrite E in L. simpl in L. lia.
Qed.

(** A partition with fewer than two exon rows is never malformed and
    gives a transcript without introns. *)
Lemma from_gtf_df_few_exons (df : DataFrame) :
  (length (filter is_exon (rows df)) < 2)%nat ->
  exists t, from_gtf_df df = Ok t /\ introns t = [].
Proof.
  intros H. unfold from_gtf_df.
  assert (Ha : rows_agree (filter is_exon (rows df)) = true).
  { destruct (filter is_exon (rows df)) as [|r0 [|r1 l]]; simpl in *;
      try reflexivity. lia. }
  rewrite Ha. eexists. split; [reflexivity|].
  unfold introns. cbn [exons t_chromosome t_strand].
  apply gaps_few. now rewrite stable_sort_length, length_map.
Qed.

End transcript_facts.

(* ================================================================== *)
(** ** Introns of a transcript *)

(** C2, as the model has it.  The introns of a transcript with exons
    [e_1 .. e_n] are the [n - 1] intervals from the end of [e_i] to the
    start of [e_(i+1)], on the chromosome and strand of the transcript,
    and there is none below two exons; a built transcript has its exons
    sorted by start, a permutation of the exon rows of its partition.
    An intron has start < end exactly when the exon before it ends
    before the exon after it starts. *)
Theorem C2_introns_between_exons (t : transcript_utils.Transcript) :
  let es := transcript_utils.exons t in
  let xs := transcript_utils.introns t in
  length xs = (length es - 1)%nat /\
  ((length es < 2)%nat -> xs = []) /\
  (forall i e1 e2,
      nth_error es i = Some e1 -> nth_error es (S i) = Some e2 ->
      nth_error xs i =
      Some (genome.mkInterval (transcript_utils.t_chromosome t)
              (transcript_utils.exon_end e1) (transcript_utils.exon_start e2)
              (transcript_utils.t_strand t))) /\
  (forall i x,
      nth_error xs i = Some x ->
      exists e1 e2,
        nth_error es i = Some e1 /\ nth_error es (S i) = Some e2 /\
        genome.chromosome x = transcript_utils.t_chromosome t /\
        genome.strand x = transcript_utils.t_strand t /\
        genome.start x = transcript_utils.exon_end e1 /\
        genome.end_ x = transcript_utils.exon_start e2 /\
        (genome.start x < genome.end_ x <-> separated e1 e2)) /\
  (forall df,
      transcript_utils.from_gtf_df df = Ok t ->
      StronglySorted (le transcript_utils.exon_start_leb) es /\
      Permutation es
        (map transcript_utils.exon_of_row
             (filter transcript_utils.is_exon (rows df)))).
Proof.
  cbv zeta. unfold transcript_utils.introns.
  split; [apply transcript_facts.gaps_length|].
  split; [apply transcript_facts.gaps_few|].
  split; [apply transcript_facts.gaps_nth|].
  split.
  - intros i x Hx.
    destruct (transcript_facts.gaps_nth_inv _ _ _ _ Hx)
      as [e1 [e2 [H1 [H2 ->]]]].
    exists e1, e2. simpl. unfold separated. tauto.
  - intros df Hdf. rewrite (transcript_facts.from_gtf_df_exons _ Hdf).
    split.
    + apply stable_sort_sorted.
      * apply transcript_facts.exon_start_leb_total.
      * apply transcript_facts.exon_start_leb_trans.
    + apply stable_sort_perm.
Qed.

(** The transcript of [adjacent_exons_gtf]: exons [100, 200) and
    [200, 300), one intron from 200 to 200. *)
Example adjacent_exons_transcript :
  transcript_utils.from_gtf_df adjacent_exons_gtf =
  Ok (transcript_utils.mkTranscript "chr1" "+"
        [transcript_utils.mkExon "chr1" 100 200;
         transcript_utils.mkExon "chr1" 200 300]) /\
  (forall r, In r (rows adjacent_exons_gtf) -> Start r < End_ r) /\
  generate_splice_sites_modelled adjacent_exons_gtf =
  Ok (mkFrame ["Chromosome"; "Start"; "Strand"] [("chr1", 200, "+")],
      mkFrame ["Chromosome"; "End"; "Strand"] [("chr1", 200, "+")]).
Proof.
  split; [reflexivity|]. split; [|reflexivity].
  simpl. intros r [<-|[<-|[]]]; simpl; lia.
Qed.

(** C2 fails as stated: on rows that all have start < end, a derived
    intron need not have start < end. *)
Lemma C2_intron_start_not_below_end :
  ~ (forall (df : DataFrame) (t : transcript_utils.Transcript)
            (x : genome.Interval),
        (forall r, In r (rows df) -> Start r < End_ r) ->
        transcript_utils.from_gtf_df df = Ok t ->
        In x (transcript_utils.introns t) ->
        genome.start x < genome.end_ x).
Proof.
  intros H.
  destruct adjacent_exons_transcript as [Ht [Hrows _]].
  specialize (H adjacent_exons_gtf _ (genome.mkInterval "chr1" 200 200 "+")
                Hrows Ht).
  simpl in H. assert (C : 200 < 200) by (apply H; now left). lia.
Qed.

(* ================================================================== *)
(** ** Malformed partitions *)

(** In the transcript module of the design document the loop over the
    transcripts does not raise. *)
Lemma junctions_read_introns (ts : list (string * transcript_utils.Transcript)) :
  junctions read_introns ts =
  Ok (flat_map (fun kt => map junction_of (transcript_utils.introns (snd kt)))
               ts).
Proof.
  unfold junctions.
  assert (H : mapM (junction_rows read_introns) ts =
              Ok (map (fun kt => map junction_of
                                     (transcript_utils.introns (snd kt))) ts)).
  { induction ts as [|kt ts IH]; simpl; [reflexivity|]. now rewrite IH. }
  rewrite H. simpl. now rewrite flat_map_concat_map.
Qed.

Lemma generate_splice_sites_modelled_Raise (gtf : DataFrame) (e : exn) :
  generate_splice_sites_modelled gtf = Raise e <->
  transcripts transcript_utils.from_gtf_df gtf = Raise e.
Proof.
  unfold generate_splice_sites_modelled.
  rewrite generate_splice_sites_Raise. split; [|now left].
  intros [H|[ts [_ H]]]; [exact H|].
  rewrite junctions_read_introns in H. discriminate.
Qed.

(** The builder raises on a partition of a table exactly when the
    mapping of transcripts cannot be built. *)
Lemma transcripts_modelled_Raise
  (gtf : DataFrame) (groups : list (string * DataFrame)) :
  groupby_transcript_id gtf = Ok groups ->
  (exists k df, In (k, df) groups /\ partition_disagrees df) ->
  transcripts transcript_utils.from_gtf_df gtf = Raise MalformedGroupError.
Proof.
  intros Hgroups [k [df [Hin Hd]]].
  destruct (transcripts transcript_utils.from_gtf_df gtf) as [ts|e] eqn:E.
  - exfalso. unfold transcripts in E. rewrite Hgroups in E. simpl in E.
    assert (Hsome : exists e, mapM
              (fun kdf : string * DataFrame =>
                 t <- transcript_utils.from_gtf_df (snd kdf) ;;
                 Ok (fst kdf, t)) groups = Raise e).
    { apply mapM_some_Raise. exists (k, df), MalformedGroupError.
      split; [exact Hin|]. simpl.
      assert (Hr : transcript_utils.from_gtf_df df = Raise MalformedGroupError)
        by (apply transcript_facts.from_gtf_df_Raise; now split).
      now rewrite Hr. }
    destruct Hsome as [e He]. congruence.
  - f_equal. apply transcripts_Raise in E. destruct E as [E|E].
    + congruence.
    + destruct E as [groups' [k' [df' [_ [_ Hr]]]]].
      now apply transcript_facts.from_gtf_df_Raise in Hr.
Qed.

(** C5.  The function ends with [MalformedGroupError], returning no
    table, exactly when a transcript partition of the table holds exon
    rows on two chromosomes or two strands: with such a partition it
    raises, and on every table without one the error is not raised; a
    table that can be grouped and has no such partition gives its two
    output tables. *)
Theorem C5_malformed_group (gtf : DataFrame) :
  (generate_splice_sites_modelled gtf = Raise MalformedGroupError <->
   exists groups k df,
     groupby_transcript_id gtf = Ok groups /\ In (k, df) groups /\
     partition_disagrees df) /\
  (forall groups,
      groupby_transcript_id gtf = Ok groups ->
      (forall k df, In (k, df) groups -> ~ partition_disagrees df) ->
      exists starts ends,
        generate_splice_sites_modelled gtf = Ok (starts, ends)).
Proof.
  split; [split|].
  - intros H. apply generate_splice_sites_modelled_Raise in H.
    apply transcripts_Raise in H. destruct H as [H|H].
    + unfold groupby_transcript_id in H.
      destruct (has_column gtf "transcript_id"); discriminate.
    + destruct H as [groups [k [df [Hg [Hin Hr]]]]].
      exists groups, k, df. split; [exact Hg|]. split; [exact Hin|].
      now apply transcript_facts.from_gtf_df_Raise in Hr.
  - intros [groups [k [df [Hg [Hin Hd]]]]].
    apply generate_splice_sites_modelled_Raise.
    apply (transcripts_modelled_Raise _ Hg). now exists k, df.
  - intros groups Hgroups Hall.
    assert (Hts : exists ts, transcripts transcript_utils.from_gtf_df gtf = Ok ts).
    { unfold transcripts. rewrite Hgroups. simpl. apply mapM_all_Ok.
      intros [k df] Hin. simpl.
      destruct (proj1 (transcript_facts.from_gtf_df_Ok df) (Hall k df Hin))
        as [t Ht].
      rewrite Ht. simpl. now eexists. }
    destruct Hts as [ts Hts]. unfold generate_splice_sites_modelled.
    rewrite (generate_splice_sites_Ok _ _ _ Hts (junctions_read_introns ts)).
    cbv zeta. now eexists _, _.
Qed.

Lemma C5_malformed_group_witness :
  generate_splice_sites_modelled two_strands_gtf = Raise MalformedGroupError.
Proof.
  apply (proj2 (proj1 (C5_malformed_group two_strands_gtf))).
  exists [("T1", two_strands_gtf)], "T1", two_strands_gtf.
  split; [reflexivity|]. split; [now left|].
  exists (example_row "chr1" 100 200 "+" (Some "T1") "exon"),
         (example_row "chr1" 300 400 "-" (Some "T1") "exon").
  simpl. repeat split; auto. right. discriminate.
Defined.

(* ================================================================== *)
(** ** Empty results *)

Lemma junctions_nil (ts : list (string * transcript_utils.Transcript)) :
  (forall kt, In kt ts -> transcript_utils.introns (snd kt) = []) ->
  junctions read_introns ts = Ok [].
Proof.
  intros H. rewrite junctions_read_introns. f_equal.
  induction ts as [|kt ts IH]; simpl; [reflexivity|].
  rewrite (H kt) by now left. simpl. apply IH. intros x Hx. apply H. now right.
Qed.

(** C7, as the code has it.  On a table with the column
    [transcript_id] that has no transcript, or whose transcripts all
    have fewer than two exon rows, the function raises nothing and
    returns two tables without rows, with the columns
    [[Chromosome, Start, Strand]] and [[Chromosome, End, Strand]]. *)
Theorem C7_empty_result
  (gtf : DataFrame)
  (Hcol : has_column gtf "transcript_id" = true)
  (Hfew : (forall r, In r (rows gtf) -> transcript_id r = None) \/
          (forall k, (exon_count gtf k < 2)%nat)) :
  generate_splice_sites_modelled gtf = Ok (empty_starts, empty_ends).
Proof.
  assert (Hcount : forall k, (exon_count gtf k < 2)%nat).
  { destruct Hfew as [Hnone|Hc]; [|exact Hc].
    intros k. unfold exon_count.
    assert (E : group_rows k (rows gtf) = []).
    { destruct (group_rows k (rows gtf)) as [|r l] eqn:E; [reflexivity|].
      assert (Hr : In r (group_rows k (rows gtf))) by (rewrite E; now left).
      apply group_rows_In in Hr. destruct Hr as [Hr Hk].
      rewrite (Hnone r Hr) in Hk. discriminate. }
    rewrite E. simpl. lia. }
  assert (Hg : exists groups, groupby_transcript_id gtf = Ok groups).
  { unfold groupby_transcript_id. rewrite Hcol. now eexists. }
  destruct Hg as [groups Hg].
  assert (Hts : exists ts, transcripts transcript_utils.from_gtf_df gtf = Ok ts).
  { unfold transcripts. rewrite Hg. simpl. apply mapM_all_Ok.
    intros [k df] Hin. simpl.
    destruct (groupby_In _ _ _ Hg Hin) as [_ ->].
    destruct (transcript_facts.from_gtf_df_few_exons
                (mkFrame (columns gtf) (group_rows k (rows gtf))) (Hcount k))
      as [t [Ht _]].
    rewrite Ht. simpl. now eexists. }
  destruct Hts as [ts Hts].
  unfold generate_splice_sites_modelled.
  rewrite (generate_splice_sites_Ok _ _ _ Hts (accumulated := []));
    [reflexivity|].
  apply junctions_nil.
  intros [k t] Hin. simpl.
  destruct (transcripts_In _ _ _ _ Hts Hin) as [groups' [df [Hg' [Hdf Ht]]]].
  destruct (groupby_In _ _ _ Hg' Hdf) as [_ ->].
  destruct (transcript_facts.from_gtf_df_few_exons
              (mkFrame (columns gtf) (group_rows k (rows gtf))) (Hcount k))
    as [t' [Ht' Hi]].
  congruence.
Qed.

Lemma C7_empty_result_witness :
  generate_splice_sites_modelled single_exon_gtf = Ok (empty_starts, empty_ends).
Proof.
  apply C7_empty_result.
  - reflexivity.
  - right. intros k. unfold exon_count, group_rows.
    cbn -[String.eqb transcript_utils.is_exon].
    destruct (String.eqb_spec "T1" k) as [<-|_]; [simpl; lia|].
    destruct (String.eqb "T2" k); simpl; lia.
Defined.

(** A table without the column [transcript_id] has no transcript, and
    the function raises on it, whatever the transcript module. *)
Example no_transcript_id_raises
  (Transcript : Type) (from_gtf_df : DataFrame -> result Transcript)
  (introns : Transcript -> result (list genome.Interval)) :
  (forall r, In r (rows no_transcript_id_gtf) -> transcript_id r = None) /\
  generate_splice_sites from_gtf_df introns no_transcript_id_gtf =
  Raise (KeyError "transcript_id").
Proof.
  split; [|reflexivity]. simpl. intros r [<-|[]]. reflexivity.
Qed.

(** An exception of [transcript.introns] ends the function: in
    [example_gtf] the transcript [T1] has three rows. *)
Example intron_loop_raises :
  (exists ts, transcripts partition_transcript example_gtf = Ok ts) /\
  generate_splice_sites partition_transcript partition_introns example_gtf =
  Raise (OtherException "ValueError").
Proof. split; [eexists|]; reflexivity. Qed.

(** C7 fails as stated: a table with no transcript need not give two
    empty tables. *)
Lemma C7_zero_transcripts_can_raise :
  ~ (forall gtf : DataFrame,
        (forall r, In r (rows gtf) -> transcript_id r = None) \/
        (forall k, (exon_count gtf k < 2)%nat) ->
        generate_splice_sites_modelled gtf = Ok (empty_starts, empty_ends)).
Proof.
  intros H.
  destruct (no_transcript_id_raises transcript_utils.from_gtf_df read_introns)
    as [Hnone Hraise].
  specialize (H no_transcript_id_gtf (or_introl Hnone)).
  unfold generate_splice_sites_modelled in H. rewrite Hraise in H.
  discriminate.
Qed.

(* ================================================================== *)
(** ** The theorems at the example tables *)

Lemma C1_sorted_then_deduplicated_witness :
  exists ts df accumulated,
    transcripts transcript_utils.from_gtf_df example_gtf = Ok ts /\
    junctions read_introns ts = Ok accumulated /\
    junction_table transcript_utils.from_gtf_df read_introns
      example_gtf = Ok df /\
    example_starts = select_starts df /\ example_ends = select_ends df /\
    let sorted := rows (sort_values (mkFrame junction_columns accumulated)) in
    is_stable_sort junction_key_leb accumulated sorted /\
    Permutation sorted accumulated /\
    first_occurrences sorted (rows df) /\
    (forall i a b,
        nth_error (rows df) i = Some a ->
        nth_error (rows df) (S i) = Some b ->
        key_le (junction_chromosome a) (junction_start a)
               (junction_chromosome b) (junction_start b)) /\
    (forall i a b,
        nth_error (rows example_starts) i = Some a ->
        nth_error (rows example_starts) (S i) = Some b ->
        key_le (site_chromosome a) (site_position a)
               (site_chromosome b) (site_position b)).
Proof.
  apply (@C1_sorted_then_deduplicated _ transcript_utils.from_gtf_df
           read_introns example_gtf example_starts example_ends).
  reflexivity.
Defined.

(** The accumulated introns of [example_gtf], in transcript order, and
    their order after the stable sort: the second [chr1:200-300] stays
    behind [chr1:200-350]. *)
Example example_sorted_junctions :
  exists ts,
    transcripts transcript_utils.from_gtf_df example_gtf = Ok ts /\
    junctions read_introns ts =
    Ok [ ("chr1", 200, 300, "+"); ("chr1", 400, 500, "+");
         ("chr1", 200, 350, "+"); ("chr1", 200, 300, "+");
         ("chr10", 20, 30, "-") ] /\
    stable_sort junction_key_leb
      [ ("chr1", 200, 300, "+"); ("chr1", 400, 500, "+");
        ("chr1", 200, 350, "+"); ("chr1", 200, 300, "+");
        ("chr10", 20, 30, "-") ] =
    [ ("chr1", 200, 300, "+"); ("chr1", 200, 350, "+");
      ("chr1", 200, 300, "+"); ("chr1", 400, 500, "+");
      ("chr10", 20, 30, "-") ].
Proof. eexists. split; [reflexivity|]. split; reflexivity. Qed.

Lemma C4_views_are_projections_witness :
  exists df,
    junction_table transcript_utils.from_gtf_df read_introns
      example_gtf = Ok df /\
    NoDup (rows df) /\
    example_starts = mkFrame ["Chromosome"; "Start"; "Strand"]
                             (map start_site (rows df)) /\
    example_ends = mkFrame ["Chromosome"; "End"; "Strand"]
                           (map end_site (rows df)) /\
    length (rows example_starts) = length (rows df) /\
    length (rows example_ends) = length (rows df) /\
    forall i j a b,
      i <> j ->
      nth_error (rows df) i = Some a ->
      nth_error (rows df) j = Some b ->
      a <> b /\
      nth_error (rows example_starts) i = Some (start_site a) /\
      nth_error (rows example_starts) j = Some (start_site b) /\
      nth_error (rows example_ends) i = Some (end_site a) /\
      nth_error (rows example_ends) j = Some (end_site b).
Proof.
  apply (@C4_views_are_projections _ transcript_utils.from_gtf_df
           read_introns example_gtf example_starts example_ends).
  reflexivity.
Defined.

(** Introns [chr1:200-300] and [chr1:200-350] share their start: the
    start-sites view holds the row [(chr1, 200, +)] twice. *)
Example shared_start_stays_two_rows :
  nth_error (rows example_junction_table) 0 = Some ("chr1", 200, 300, "+") /\
  nth_error (rows example_junction_table) 1 = Some ("chr1", 200, 350, "+") /\
  nth_error (rows example_starts) 0 = Some ("chr1", 200, "+") /\
  nth_error (rows example_starts) 1 = Some ("chr1", 200, "+").
Proof. repeat split. Qed.

Lemma C10_views_aligned_witness :
  length (rows example_starts) = length (rows example_ends) /\
  (forall i a b,
      nth_error (rows example_starts) i = Some a ->
      nth_error (rows example_ends) i = Some b ->
      site_chromosome a = site_chromosome b /\
      site_strand a = site_strand b) /\
  exists df,
    junction_table transcript_utils.from_gtf_df read_introns
      example_gtf = Ok df /\
    forall i,
      nth_error (rows example_starts) i =
        option_map start_site (nth_error (rows df) i) /\
      nth_error (rows example_ends) i =
        option_map end_site (nth_error (rows df) i).
Proof.
  apply (@C10_views_aligned _ transcript_utils.from_gtf_df
           read_introns example_gtf example_starts example_ends).
  reflexivity.
Defined.

Lemma C9_deterministic_witness :
  generate_splice_sites_run transcript_utils.from_gtf_df
    read_introns example_gtf (Ok (example_starts, example_ends)) /\
  Ok (example_starts, example_ends) = generate_splice_sites_modelled example_gtf.
Proof.
  assert (H : generate_splice_sites_run transcript_utils.from_gtf_df
                read_introns example_gtf
                (Ok (example_starts, example_ends))).
  { exact (generate_splice_sites_runs transcript_utils.from_gtf_df
             read_introns example_gtf). }
  split; [exact H|].
  exact (proj2 (C9_deterministic H H)).
Defined.


Lemma C2_introns_between_exons_witness :
  transcript_utils.introns
    (transcript_utils.mkTranscript "chr1" "+"
       [transcript_utils.mkExon "chr1" 12099 14148;
        transcript_utils.mkExon "chr1" 16195 17220]) =
  [genome.mkInterval "chr1" 14148 16195 "+"].
Proof.
  pose proof (C2_introns_between_exons
                (transcript_utils.mkTranscript "chr1" "+"
                   [transcript_utils.mkExon "chr1" 12099 14148;
                    transcript_utils.mkExon "chr1" 16195 17220]))
    as [Hlen [_ [Hnth _]]].
  cbv zeta in Hnth, Hlen.
  specialize (Hnth 0%nat _ _ eq_refl eq_refl).
  destruct (transcript_utils.introns _) as [|x [|y l]];
    simpl in Hlen, Hnth; try discriminate.
  now injection Hnth as ->.
Defined.

(* ================================================================== *)
(** ** Rows with start >= end *)

(** The gene row of [empty_gene_gtf] has start = end, the table has all
    its columns, and the function returns two empty tables, whatever the
    transcript module: the row is in no group. *)
Example empty_gene_not_rejected
  (Transcript : Type) (from_gtf_df : DataFrame -> result Transcript)
  (introns : Transcript -> result (list genome.Interval)) :
  (forall c, In c gtf_columns -> has_column empty_gene_gtf c = true) /\
  (exists r, In r (rows empty_gene_gtf) /\ Start r >= End_ r) /\
  generate_splice_sites from_gtf_df introns empty_gene_gtf =
  Ok (empty_starts, empty_ends).
Proof.
  split; [|split].
  - intros c Hc. simpl in Hc.
    repeat (destruct Hc as [<-|Hc]; [reflexivity|]). destruct Hc.
  - eexists. split; [now left|]. simpl. lia.
  - reflexivity.
Qed.

(** A table that lacks every column but [transcript_id] and has no
    rows gives two empty tables, whatever the transcript module. *)
Example missing_columns_not_rejected
  (Transcript : Type) (from_gtf_df : DataFrame -> result Transcript)
  (introns : Transcript -> result (list genome.Interval)) :
  has_column only_transcript_id_gtf "Start" = false /\
  generate_splice_sites from_gtf_df introns only_transcript_id_gtf =
  Ok (empty_starts, empty_ends).
Proof. split; reflexivity. Qed.

(** C6 fails as stated: a table with a row with start >= end need not
    end in an exception. *)
Lemma C6_start_not_below_end_not_rejected :
  ~ (forall gtf : DataFrame,
        (exists c, In c gtf_columns /\ has_column gtf c = false) \/
        (exists r, In r (rows gtf) /\ Start r >= End_ r) ->
        exists e, generate_splice_sites_modelled gtf = Raise e).
Proof.
  intros H.
  destruct (empty_gene_not_rejected transcript_utils.from_gtf_df
              read_introns) as [_ [Hrow Hok]].
  destruct (H empty_gene_gtf (or_intror Hrow)) as [e He].
  unfold generate_splice_sites_modelled in He.
  rewrite Hok in He. discriminate.
Qed.

Lemma C6_errors_of_generate_splice_sites_witness :
  generate_splice_sites_modelled no_transcript_id_gtf =
  Raise (KeyError "transcript_id").
Proof.
  apply (proj1 (C6_errors_of_generate_splice_sites
                  transcript_utils.from_gtf_df read_introns
                  no_transcript_id_gtf)).
  reflexivity.
Defined.

(* ================================================================== *)
(** ** Suffixes of paths *)

Lemma string_app_nil_r (s : string) : (s ++ "")%string = s.
Proof. induction s as [|c s IH]; simpl; [reflexivity|now rewrite IH]. Qed.

Lemma string_app_assoc (a b c : string) :
  ((a ++ b) ++ c)%string = (a ++ (b ++ c))%string.
Proof. induction a as [|x a IH]; simpl; [reflexivity|now rewrite IH]. Qed.

Lemma string_app_length (a b : string) :
  String.length (a ++ b) = (String.length a + String.length b)%nat.
Proof. induction a as [|x a IH]; simpl; [reflexivity|now rewrite IH]. Qed.

Lemma string_app_inv_head (a b c : string) :
  (a ++ b)%string = (a ++ c)%string -> b = c.
Proof.
  induction a as [|x a IH]; simpl; intros H; [exact H|].
  injection H as H. now apply IH.
Qed.

Lemma endswith_iff (s suffix : string) :
  endswith s suffix = true <-> exists p, s = (p ++ suffix)%string.
Proof.
  induction s as [|c s IH]; cbn [endswith].
  - rewrite orb_false_r, String.eqb_eq. split.
    + intros <-. now exists "".
    + intros [[|x p] H]; simpl in H; [exact H|discriminate].
  - rewrite orb_true_iff, String.eqb_eq, IH. split.
    + intros [<-|[p ->]]; [now exists ""|now exists (String c p)].
    + intros [[|x p] H]; simpl in H; [now left|].
      injection H as <- ->. right. now exists p.
Qed.

Lemma endswith_app (p s suffix : string) :
  endswith s suffix = true -> endswith (p ++ s) suffix = true.
Proof.
  rewrite !endswith_iff. intros [q ->]. exists (p ++ q)%string.
  now rewrite string_app_assoc.
Qed.

Lemma cons_app_neq (c : ascii) (p s : string) : String c (p ++ s) <> s.
Proof.
  intros H. apply (f_equal String.length) in H. simpl in H.
  rewrite string_app_length in H. lia.
Qed.

Lemma removesuffix_app (p suffix : string) :
  suffix <> "" -> removesuffix (p ++ suffix) suffix = p.
Proof.
  intros Hs. induction p as [|c p IH]; cbn [String.append].
  - destruct suffix as [|x suffix]; [now destruct Hs|].
    cbn [removesuffix]. now rewrite String.eqb_refl.
  - cbn [removesuffix].
    destruct (String.eqb_spec (String c (p ++ suffix)) suffix) as [E|_];
      [now apply cons_app_neq in E|].
    assert (He : endswith (p ++ suffix) suffix = true)
      by (apply endswith_iff; now exists p).
    now rewrite He, IH.
Qed.

Lemma removesuffix_no_suffix (s suffix : string) :
  endswith s suffix = false -> removesuffix s suffix = s.
Proof.
  destruct s as [|c s]; cbn [removesuffix endswith].
  - destruct (String.eqb "" suffix); [discriminate|reflexivity].
  - intros H. apply orb_false_iff in H. destruct H as [H1 H2].
    now rewrite H1, H2.
Qed.

(** The round trip of [removesuffix]: the suffix put back gives the
    string. *)
Lemma removesuffix_endswith (s suffix : string) :
  endswith s suffix = true -> (removesuffix s suffix ++ suffix)%string = s.
Proof.
  intros H. destruct (String.eqb_spec suffix "") as [->|Hne].
  - clear H. rewrite string_app_nil_r.
    induction s as [|c s IH]; [reflexivity|].
    cbn [removesuffix].
    destruct (String.eqb_spec (String c s) "") as [E|_]; [discriminate|].
    assert (He : endswith s "" = true) by (apply endswith_iff; exists s;
      now rewrite string_app_nil_r).
    now rewrite He, IH.
  - apply endswith_iff in H. destruct H as [p ->].
    now rewrite removesuffix_app.
Qed.

(* ================================================================== *)
(** ** The names of the two splice-site files *)

(** X1. For every value of the flag, the start-sites path and the
    end-sites path end with [.feather], differ from each other and from
    the flag; they are [stem_starts.feather] and [stem_ends.feather]
    when the flag is [stem.feather], and the flag with [_starts.feather]
    and [_ends.feather] appended when it does not end with
    [.feather]. *)
Theorem X1_splice_sites_paths (p : string) :
  endswith (splice_sites_start_path p) ".feather" = true /\
  endswith (splice_sites_end_path p) ".feather" = true /\
  splice_sites_start_path p <> splice_sites_end_path p /\
  splice_sites_start_path p <> p /\
  splice_sites_end_path p <> p /\
  (forall stem,
      p = (stem ++ ".feather")%string ->
      splice_sites_start_path p = (stem ++ "_starts.feather")%string /\
      splice_sites_end_path p = (stem ++ "_ends.feather")%string) /\
  (endswith p ".feather" = false ->
   splice_sites_start_path p = (p ++ "_starts.feather")%string /\
   splice_sites_end_path p = (p ++ "_ends.feather")%string).
Proof.
  unfold splice_sites_start_path, splice_sites_end_path.
  assert (Hstem : forall stem, p = (stem ++ ".feather")%string ->
                               removesuffix p ".feather" = stem).
  { intros stem ->. apply removesuffix_app. discriminate. }
  split; [apply endswith_app; reflexivity|].
  split; [apply endswith_app; reflexivity|].
  split; [intros H; apply string_app_inv_head in H; discriminate|].
  assert (Hne : forall tail : string,
             (String.length ".feather" < String.length tail)%nat ->
             (forall stem, (stem ++ tail)%string <> (stem ++ ".feather")%string) ->
             (removesuffix p ".feather" ++ tail)%string <> p).
  { intros tail Hlen Hstemne H.
    destruct (endswith p ".feather") eqn:E.
    - apply endswith_iff in E. destruct E as [stem E].
      rewrite (Hstem stem E), E in H. now apply Hstemne in H.
    - rewrite (removesuffix_no_suffix _ _ E) in H.
      apply (f_equal String.length) in H. rewrite string_app_length in H.
      simpl in Hlen. lia. }
  split; [apply Hne; [simpl; lia|]|].
  { intros stem H. apply string_app_inv_head in H. discriminate. }
  split; [apply Hne; [simpl; lia|]|].
  { intros stem H. apply string_app_inv_head in H. discriminate. }
  split.
  - intros stem E. now rewrite (Hstem stem E).
  - intros E. now rewrite (removesuffix_no_suffix _ _ E).
Qed.

Example splice_sites_paths_example :
  splice_sites_start_path "out/sites.feather" = "out/sites_starts.feather" /\
  splice_sites_end_path "out/sites.feather" = "out/sites_ends.feather" /\
  splice_sites_start_path "out/sites" = "out/sites_starts.feather" /\
  splice_sites_end_path "sites.feather.bak" = "sites.feather.bak_ends.feather".
Proof. repeat split. Qed.

(* ================================================================== *)
(** ** The column [gene_id_nopatch] *)

Lemma before_first_dot_no_dot (s : string) : no_dot (before_first_dot s).
Proof.
  induction s as [|c s IH]; simpl; [exact I|].
  destruct (Ascii.eqb_spec c "."%char) as [_|Hc]; simpl; [exact I|now split].
Qed.

Lemma before_first_dot_split (s : string) :
  exists rest,
    s = (before_first_dot s ++ rest)%string /\
    (rest = "" \/ exists r, rest = String "."%char r).
Proof.
  induction s as [|c s [rest [IH Hrest]]]; simpl.
  - exists "". split; [reflexivity|now left].
  - destruct (Ascii.eqb_spec c "."%char) as [->|Hc]; simpl.
    + exists (String "."%char s). split; [reflexivity|]. right. now exists s.
    + exists rest. split; [now rewrite <- IH|exact Hrest].
Qed.

Lemma before_first_dot_unique (a rest : string) :
  no_dot a -> (rest = "" \/ exists r, rest = String "."%char r) ->
  before_first_dot (a ++ rest) = a.
Proof.
  intros Ha Hrest. induction a as [|c a IH]; simpl.
  - destruct Hrest as [->|[r ->]]; reflexivity.
  - destruct Ha as [Hc Ha].
    destruct (Ascii.eqb_spec c "."%char) as [E|_]; [contradiction|].
    now rewrite IH.
Qed.

Lemma before_first_dot_fixed (s : string) :
  before_first_dot s = s <-> no_dot s.
Proof.
  split.
  - intros <-. apply before_first_dot_no_dot.
  - intros H. rewrite <- (string_app_nil_r s) at 1.
    rewrite before_first_dot_unique; auto.
Qed.

(** X2. The value of [gene_id_nopatch] is the [gene_id] up to its first
    dot: it holds no dot, the [gene_id] is that value followed by
    nothing or by a rest that starts with a dot, and it is the only
    string with these two properties; it is the [gene_id] itself
    exactly when the [gene_id] holds no dot. *)
Theorem X2_gene_id_nopatch_value (r : Row) :
  let v := gene_id_nopatch (set_gene_id_nopatch r) in
  no_dot v /\
  (exists rest,
      gene_id r = (v ++ rest)%string /\
      (rest = "" \/ exists t, rest = String "."%char t)) /\
  (forall a rest,
      no_dot a -> gene_id r = (a ++ rest)%string ->
      (rest = "" \/ exists t, rest = String "."%char t) -> a = v) /\
  (v = gene_id r <-> no_dot (gene_id r)).
Proof.
  cbv zeta. cbn [set_gene_id_nopatch gene_id_nopatch].
  split; [apply before_first_dot_no_dot|].
  split; [apply before_first_dot_split|].
  split; [|apply before_first_dot_fixed].
  intros a rest Ha -> Hrest. symmetry. now apply before_first_dot_unique.
Qed.

Lemma set_gene_id_nopatch_same (r : Row) :
  same_but_nopatch r (set_gene_id_nopatch r).
Proof. repeat split. Qed.

Lemma set_gene_id_nopatch_idem (r : Row) :
  set_gene_id_nopatch (set_gene_id_nopatch r) = set_gene_id_nopatch r.
Proof. reflexivity. Qed.

Lemma has_column_columns_with (R : Type) (cols : list string) (rs : list R)
  (c d : string) :
  has_column (mkFrame (columns_with c cols) rs) d = true <->
  existsb (String.eqb d) cols = true \/ d = c.
Proof.
  unfold has_column, columns_with. cbn [columns].
  destruct (existsb (String.eqb c) cols) eqn:E.
  - split; [now left|]. intros [H| ->]; [exact H|exact E].
  - rewrite existsb_app. simpl. rewrite orb_false_r, orb_true_iff.
    now rewrite String.eqb_eq.
Qed.

Lemma columns_with_idem (c : string) (cols : list string) :
  columns_with c (columns_with c cols) = columns_with c cols.
Proof.
  unfold columns_with at 1.
  assert (H : existsb (String.eqb c) (columns_with c cols) = true).
  { unfold columns_with. destruct (existsb (String.eqb c) cols) eqn:E;
      [exact E|].
    rewrite existsb_app. simpl. now rewrite String.eqb_refl, orb_true_r. }
  now rewrite H.
Qed.

Lemma assign_gene_id_nopatch_Ok (gtf g : DataFrame) :
  assign_gene_id_nopatch gtf = Ok g ->
  has_column gtf "gene_id" = true /\ rows gtf <> [] /\
  g = mkFrame (columns_with "gene_id_nopatch" (columns gtf))
              (map set_gene_id_nopatch (rows gtf)).
Proof.
  unfold assign_gene_id_nopatch.
  destruct (has_column gtf "gene_id"); [|discriminate].
  destruct (rows gtf) as [|r rs] eqn:E; [discriminate|].
  intros H. injection H as <-. repeat split. discriminate.
Qed.

(** X3. When the assignment of [gene_id_nopatch] succeeds, the table
    had the column [gene_id] and at least one row; the new table has as
    many rows, row for row the old row changed at most in
    [gene_id_nopatch], which holds the [gene_id] up to its first dot;
    its columns are the old ones unchanged when [gene_id_nopatch] was
    among them, and the old ones followed by [gene_id_nopatch] when it
    was not. *)
Theorem X3_assign_gene_id_nopatch
  (gtf g : DataFrame) (Hok : assign_gene_id_nopatch gtf = Ok g) :
  has_column gtf "gene_id" = true /\
  rows gtf <> [] /\
  length (rows g) = length (rows gtf) /\
  (forall i r,
      nth_error (rows gtf) i = Some r ->
      exists r',
        nth_error (rows g) i = Some r' /\ same_but_nopatch r r' /\
        gene_id_nopatch r' = before_first_dot (gene_id r)) /\
  (forall c, has_column g c = true <->
             has_column gtf c = true \/ c = "gene_id_nopatch") /\
  (has_column gtf "gene_id_nopatch" = true -> columns g = columns gtf) /\
  (has_column gtf "gene_id_nopatch" = false ->
   columns g = columns gtf ++ ["gene_id_nopatch"]).
Proof.
  destruct (@assign_gene_id_nopatch_Ok _ _ Hok) as [Hcol [Hrows ->]].
  split; [exact Hcol|]. split; [exact Hrows|].
  split; [simpl; apply length_map|].
  split; [|split].
  - intros i r Hr. exists (set_gene_id_nopatch r). simpl.
    rewrite nth_error_map, Hr. simpl.
    split; [reflexivity|]. split; [apply set_gene_id_nopatch_same|reflexivity].
  - intros c. apply has_column_columns_with.
  - split; unfold has_column; intros H; simpl; unfold columns_with;
      now rewrite H.
Qed.

Lemma X3_assign_gene_id_nopatch_witness :
  has_column example_gtf "gene_id" = true /\
  rows example_gtf <> [] /\
  length (map set_gene_id_nopatch (rows example_gtf)) =
  length (rows example_gtf).
Proof.
  pose proof (@X3_assign_gene_id_nopatch example_gtf
                (mkFrame gtf_columns
                         (map set_gene_id_nopatch (rows example_gtf)))
                eq_refl) as [H1 [H2 [H3 _]]].
  split; [exact H1|]. split; [exact H2|exact H3].
Defined.

(** The expected table of [test_process_gtf] carries the values the
    assignment computes. *)
Example processed_gtf_nopatch :
  assign_gene_id_nopatch _PROCESSED_GTF = Ok _PROCESSED_GTF.
Proof. reflexivity. Qed.

(** X4. The assignment is idempotent: on a table it returned it returns
    that table again. *)
Theorem X4_assign_gene_id_nopatch_idempotent
  (gtf g : DataFrame) (Hok : assign_gene_id_nopatch gtf = Ok g) :
  assign_gene_id_nopatch g = Ok g.
Proof.
  destruct (@assign_gene_id_nopatch_Ok _ _ Hok) as [Hcol [Hrows ->]].
  unfold assign_gene_id_nopatch.
  assert (H1 : has_column
                 (mkFrame (columns_with "gene_id_nopatch" (columns gtf))
                          (map set_gene_id_nopatch (rows gtf))) "gene_id" = true).
  { apply has_column_columns_with. now left. }
  rewrite H1. cbn [rows columns].
  destruct (rows gtf) as [|r rs]; [now destruct Hrows|].
  cbn [map]. rewrite columns_with_idem.
  change (set_gene_id_nopatch (set_gene_id_nopatch r)
          :: map set_gene_id_nopatch (map set_gene_id_nopatch rs))
    with (set_gene_id_nopatch r
          :: map set_gene_id_nopatch (map set_gene_id_nopatch rs)).
  rewrite map_map.
  rewrite (map_ext _ _ set_gene_id_nopatch_idem). reflexivity.
Qed.

Lemma X4_assign_gene_id_nopatch_idempotent_witness :
  assign_gene_id_nopatch
    (mkFrame (gtf_columns)
             (map set_gene_id_nopatch (rows example_gtf))) =
  Ok (mkFrame gtf_columns (map set_gene_id_nopatch (rows example_gtf))).
Proof.
  apply (@X4_assign_gene_id_nopatch_idempotent example_gtf). reflexivity.
Defined.

Lemma present_ids_set_nopatch (rs : list Row) :
  present_ids (map set_gene_id_nopatch rs) = present_ids rs.
Proof.
  induction rs as [|r rs IH]; simpl; [reflexivity|].
  destruct (transcript_id r); now rewrite IH.
Qed.

Lemma group_rows_set_nopatch (k : string) (rs : list Row) :
  group_rows k (map set_gene_id_nopatch rs) =
  map set_gene_id_nopatch (group_rows k rs).
Proof.
  unfold group_rows. induction rs as [|r rs IH]; simpl; [reflexivity|].
  destruct (option_string_eqb (transcript_id r) k); simpl; now rewrite IH.
Qed.

(** X5. Grouping the table with [gene_id_nopatch] assigned gives the
    groups of the table it was assigned to, the same transcript ids in
    the same order, every group with the column assigned; and it raises
    when grouping that table raises. *)
Theorem X5_groupby_after_assign
  (gtf g : DataFrame) (Hok : assign_gene_id_nopatch gtf = Ok g) :
  groupby_transcript_id g =
  (groups <- groupby_transcript_id gtf ;;
   Ok (map (fun kdf : string * DataFrame =>
              (fst kdf,
               mkFrame (columns g) (map set_gene_id_nopatch (rows (snd kdf)))))
           groups)).
Proof.
  destruct (@assign_gene_id_nopatch_Ok _ _ Hok) as [Hcol [Hrows ->]].
  unfold groupby_transcript_id.
  assert (Hc : has_column
                 (mkFrame (columns_with "gene_id_nopatch" (columns gtf))
                          (map set_gene_id_nopatch (rows gtf))) "transcript_id" =
               has_column gtf "transcript_id").
  { destruct (has_column gtf "transcript_id") eqn:E.
    - apply has_column_columns_with. now left.
    - destruct (has_column (mkFrame _ _) "transcript_id") eqn:E'; [|reflexivity].
      apply has_column_columns_with in E'. destruct E' as [E'|E'];
        [unfold has_column in E; congruence|discriminate]. }
  rewrite Hc. destruct (has_column gtf "transcript_id"); [|reflexivity].
  cbn [bind rows columns]. f_equal.
  unfold group_keys. rewrite present_ids_set_nopatch, map_map.
  apply map_ext. intros k. cbn [fst snd rows].
  now rewrite group_rows_set_nopatch.
Qed.

Lemma X5_groupby_after_assign_witness :
  groupby_transcript_id
    (mkFrame gtf_columns (map set_gene_id_nopatch (rows example_gtf))) =
  (groups <- groupby_transcript_id example_gtf ;;
   Ok (map (fun kdf : string * DataFrame =>
              (fst kdf,
               mkFrame gtf_columns (map set_gene_id_nopatch (rows (snd kdf)))))
           groups)).
Proof.
  apply (@X5_groupby_after_assign example_gtf
           (mkFrame gtf_columns (map set_gene_id_nopatch (rows example_gtf)))).
  reflexivity.
Defined.

(* ================================================================== *)
(** ** More on duplicate removal and sorted lists *)

Section DropDuplicatesFilter.

Variable A : Type.
Variable eqb : A -> A -> bool.
Hypothesis eqb_eq : forall a b, eqb a b = true <-> a = b.

Lemma drop_seen_ext (l : list A) :
  forall s1 s2,
    (forall x, In x l -> mem eqb x s1 = mem eqb x s2) ->
    drop_seen eqb s1 l = drop_seen eqb s2 l.
Proof.
  induction l as [|y l IH]; intros s1 s2 H; simpl; [reflexivity|].
  rewrite (H y) by now left.
  destruct (mem eqb y s2).
  - apply IH. intros x Hx. apply H. now right.
  - f_equal. apply IH. intros x Hx. unfold mem. simpl.
    f_equal. apply H. now right.
Qed.

(** Selecting rows and removing duplicates commute. *)
Lemma filter_drop_seen (p : A -> bool) (l : list A) :
  forall seen,
    filter p (drop_seen eqb seen l) = drop_seen eqb seen (filter p l).
Proof.
  induction l as [|y l IH]; intros seen; simpl; [reflexivity|].
  destruct (mem eqb y seen) eqn:M; destruct (p y) eqn:P; simpl;
    rewrite ?M, ?P, ?IH; try reflexivity.
  apply drop_seen_ext. intros x Hx. unfold mem. simpl.
  apply filter_In in Hx. destruct Hx as [_ Px].
  destruct (eqb x y) eqn:E; [|reflexivity].
  apply eqb_eq in E. congruence.
Qed.

Lemma filter_unique (p : A -> bool) (l : list A) :
  filter p (unique eqb l) = unique eqb (filter p l).
Proof. apply filter_drop_seen. Qed.

Lemma unique_length (l : list A) : (length (unique eqb l) <= length l)%nat.
Proof.
  unfold unique. generalize (@nil A) as seen.
  induction l as [|y l IH]; intros seen; simpl; [lia|].
  destruct (mem eqb y seen); simpl.
  - specialize (IH seen). lia.
  - specialize (IH (y :: seen)). lia.
Qed.

End DropDuplicatesFilter.

Lemma StronglySorted_app_before (A : Type) (R : A -> A -> Prop)
  (l1 : list A) (a : A) (l2 : list A) :
  StronglySorted R (l1 ++ a :: l2) -> forall x, In x l1 -> R x a.
Proof.
  induction l1 as [|y l1 IH]; simpl; intros H x Hx; [destruct Hx|].
  apply StronglySorted_inv in H. destruct H as [Hs Hy].
  destruct Hx as [<-|Hx].
  - rewrite Forall_forall in Hy. apply Hy. apply in_or_app. right. now left.
  - now apply IH.
Qed.

Lemma group_keys_strictly_sorted (rs : list Row) :
  StronglySorted (fun a b => String.ltb a b = true) (group_keys rs).
Proof.
  pose proof (group_keys_sorted rs) as Hs.
  pose proof (group_keys_NoDup rs) as Hn.
  induction Hs as [|k l Hs IH Hk]; [constructor|].
  inversion Hn as [|? ? Hnotin Hn']; subst.
  constructor; [now apply IH|].
  rewrite Forall_forall in *. intros x Hx.
  specialize (Hk x Hx). unfold le in Hk.
  apply StrOrd.leb_ltb_or_eq in Hk. destruct Hk as [Hk| ->]; [exact Hk|].
  contradiction.
Qed.

Lemma mapM_Raise_first (A B : Type) (f : A -> result B) (l : list A) (e : exn) :
  mapM f l = Raise e ->
  exists l1 a l2,
    l = l1 ++ a :: l2 /\ f a = Raise e /\
    forall x, In x l1 -> exists b, f x = Ok b.
Proof.
  induction l as [|a l IH]; simpl; [discriminate|].
  destruct (f a) as [b|e'] eqn:Ha; simpl.
  - destruct (mapM f l) as [bs|e'']; simpl; [discriminate|].
    intros H. injection H as ->.
    destruct IH as [l1 [x [l2 [-> [Hx Hl1]]]]]; [reflexivity|].
    exists (a :: l1), x, l2. split; [reflexivity|]. split; [exact Hx|].
    intros y [<-|Hy]; [now exists b|now apply Hl1].
  - intros H. injection H as ->. exists [], a, l.
    split; [reflexivity|]. split; [exact Ha|]. intros y [].
Qed.

Lemma at_key_junction_key_leb (c : string) (s : Z) (x y : Junction) :
  at_key c s x = true -> at_key c s y = true -> junction_key_leb x y = true.
Proof.
  destruct x as [[[c1 s1] e1] d1], y as [[[c2 s2] e2] d2].
  unfold at_key, junction_chromosome, junction_start. simpl.
  rewrite !andb_true_iff, !String.eqb_eq, !Z.eqb_eq.
  intros [-> ->] [-> ->].
  rewrite String.eqb_refl, Z.leb_refl. apply orb_true_r.
Qed.

(* ================================================================== *)
(** ** More on [generate_splice_sites], for any transcript module *)

Section PipelineMore.

Variable Transcript : Type.
Variable from_gtf_df : DataFrame -> result Transcript.
Variable introns : Transcript -> result (list genome.Interval).

(** The accumulated rows are the rows of the introns of the first
    transcript, then those of the second, and so on. *)
Lemma junctions_Ok_inv (ts : list (string * Transcript))
  (accumulated : list Junction) :
  junctions introns ts = Ok accumulated ->
  exists added,
    Forall2 (fun (kt : string * Transcript) (added_rows : list Junction) =>
               exists xs, introns (snd kt) = Ok xs /\
                          added_rows = map junction_of xs)
            ts added /\
    accumulated = concat added.
Proof.
  unfold junctions.
  destruct (mapM (junction_rows introns) ts) as [added|e] eqn:M; simpl;
    [|discriminate].
  intros H. injection H as <-. exists added. split; [|reflexivity].
  apply mapM_Ok_Forall2 in M.
  induction M as [|kt r l l' Hab M IH]; constructor; [|exact IH].
  unfold junction_rows in Hab.
  destruct (introns (snd kt)) as [xs|e]; simpl in Hab; [|discriminate].
  injection Hab as <-. now exists xs.
Qed.

Lemma junctions_In (ts : list (string * Transcript))
  (accumulated : list Junction) :
  junctions introns ts = Ok accumulated ->
  forall j,
    In j accumulated <->
    exists k t xs x,
      In (k, t) ts /\ introns t = Ok xs /\ In x xs /\ j = junction_of x.
Proof.
  intros H j. destruct (junctions_Ok_inv _ H) as [added [HF ->]].
  clear H. induction HF as [|[k t] r l l' [xs [Hxs ->]] HF IH]; simpl.
  - split; [intros []|]. intros [k [t [xs [x [[] _]]]]].
  - rewrite in_app_iff, IH, in_map_iff. simpl in Hxs. split.
    + intros [[x [<- Hx]]|[k' [t' [xs' [x [Hin H]]]]]].
      * exists k, t, xs, x. repeat split; auto.
      * exists k', t', xs', x. split; [now right|exact H].
    + intros [k' [t' [xs' [x [[E|Hin] [Hi [Hx ->]]]]]]].
      * injection E as <- <-. left. exists x. split; [reflexivity|].
        congruence.
      * right. now exists k', t', xs', x.
Qed.

(** X6. Among the rows of the junction table with one chromosome and
    one start, the order is that of the loop over the transcripts: they
    are the introns with that chromosome and start in the order the
    transcripts gave them, ascending transcript id first, each kept at
    its first occurrence. *)
Theorem X6_ties_in_transcript_order
  (gtf : DataFrame) (df : Frame Junction)
  (Hdf : junction_table from_gtf_df introns gtf = Ok df) :
  exists ts accumulated added,
    transcripts from_gtf_df gtf = Ok ts /\
    junctions introns ts = Ok accumulated /\
    Forall2 (fun (kt : string * Transcript) (added_rows : list Junction) =>
               exists xs, introns (snd kt) = Ok xs /\
                          added_rows = map junction_of xs)
            ts added /\
    accumulated = concat added /\
    forall c s,
      filter (at_key c s) (rows df) =
      unique junction_eqb (filter (at_key c s) accumulated).
Proof.
  destruct (junction_table_inv _ _ _ Hdf) as [ts [accumulated [Hts [Hacc ->]]]].
  destruct (junctions_Ok_inv _ Hacc) as [added [HF Hc]].
  exists ts, accumulated, added.
  split; [exact Hts|]. split; [exact Hacc|]. split; [exact HF|].
  split; [exact Hc|]. intros c s. simpl.
  rewrite (@filter_unique _ _ junction_eqb_eq).
  rewrite stable_sort_filter; [reflexivity|].
  apply at_key_junction_key_leb.
Qed.

Lemma mapM_keys (l : list (string * DataFrame)) :
  forall ts,
    mapM (fun kdf : string * DataFrame =>
            t <- from_gtf_df (snd kdf) ;; Ok (fst kdf, t)) l = Ok ts ->
    map fst ts = map fst l.
Proof.
  induction l as [|[k df] l IH]; simpl; intros ts H.
  - now injection H as <-.
  - destruct (from_gtf_df df) as [t|e]; simpl in H; [|discriminate].
    destruct (mapM _ l) as [ts'|e]; simpl in H; [|discriminate].
    injection H as <-. simpl. f_equal. now apply IH.
Qed.

Lemma transcripts_keys (gtf : DataFrame) (ts : list (string * Transcript)) :
  transcripts from_gtf_df gtf = Ok ts ->
  map fst ts = group_keys (rows gtf).
Proof.
  unfold transcripts.
  destruct (groupby_transcript_id gtf) as [groups|e] eqn:Hg; simpl;
    [|discriminate].
  intros H. rewrite <- (groupby_keys _ Hg). now apply mapM_keys.
Qed.

(** X7. The mapping of transcripts has one entry for every transcript
    id that occurs in the table and no other, in strictly ascending
    order of the ids. *)
Theorem X7_transcripts_keys
  (gtf : DataFrame) (ts : list (string * Transcript))
  (Hts : transcripts from_gtf_df gtf = Ok ts) :
  StronglySorted (fun a b => String.ltb a b = true) (map fst ts) /\
  NoDup (map fst ts) /\
  forall k, In k (map fst ts) <->
            exists r, In r (rows gtf) /\ transcript_id r = Some k.
Proof.
  rewrite (transcripts_keys _ Hts). split; [|split].
  - apply group_keys_strictly_sorted.
  - apply group_keys_NoDup.
  - apply group_keys_In.
Qed.

Lemma junctions_Raise_first (ts : list (string * Transcript)) (e : exn) :
  junctions introns ts = Raise e ->
  exists before k t after,
    ts = before ++ (k, t) :: after /\
    introns t = Raise e /\
    forall k' t', In (k', t') before -> exists xs, introns t' = Ok xs.
Proof.
  unfold junctions.
  destruct (mapM (junction_rows introns) ts) as [added|e'] eqn:M; simpl;
    [discriminate|].
  intros H. injection H as ->. apply mapM_Raise_first in M.
  destruct M as [l1 [[k t] [l2 [Hsplit [Hf Hl1]]]]].
  unfold junction_rows in Hf. simpl in Hf.
  destruct (introns t) as [xs|e'] eqn:E; simpl in Hf; [discriminate|].
  injection Hf as ->. exists l1, k, t, l2.
  split; [exact Hsplit|]. split; [exact E|].
  intros k' t' Hin. destruct (Hl1 _ Hin) as [r Hr].
  unfold junction_rows in Hr. simpl in Hr.
  destruct (introns t') as [xs|]; simpl in Hr; [|discriminate].
  now exists xs.
Qed.

(** X8. When [generate_splice_sites] raises, one of three holds.  The
    table has no column [transcript_id] and the exception is the
    [KeyError] of [groupby].  Or it is the exception of the transcript
    builder on the partition of the smallest transcript id on which the
    builder raises: the partitions of all smaller ids were built.  Or
    all transcripts were built and it is the exception of reading the
    introns of the transcript of the smallest id for which that
    raises: the introns of all transcripts of smaller ids were read. *)
Theorem X8_first_failing_partition
  (gtf : DataFrame) (e : exn)
  (Hraise : generate_splice_sites from_gtf_df introns gtf = Raise e) :
  (has_column gtf "transcript_id" = false /\ e = KeyError "transcript_id") \/
  (exists groups before k df after,
      groupby_transcript_id gtf = Ok groups /\
      groups = before ++ (k, df) :: after /\
      from_gtf_df df = Raise e /\
      forall k' df',
        In (k', df') before ->
        String.ltb k' k = true /\ exists t, from_gtf_df df' = Ok t) \/
  (exists ts before k t after,
      transcripts from_gtf_df gtf = Ok ts /\
      ts = before ++ (k, t) :: after /\
      introns t = Raise e /\
      forall k' t',
        In (k', t') before ->
        String.ltb k' k = true /\ exists xs, introns t' = Ok xs).
Proof.
  apply generate_splice_sites_Raise in Hraise.
  destruct Hraise as [Hraise|[ts [Hts Hraise]]].
  - unfold transcripts in Hraise.
    destruct (groupby_transcript_id gtf) as [groups|e'] eqn:Hg;
      simpl in Hraise.
    + right. left. apply mapM_Raise_first in Hraise.
      destruct Hraise as [l1 [[k df] [l2 [Hsplit [Hf Hl1]]]]].
      simpl in Hf. destruct (from_gtf_df df) as [t|e'] eqn:E; simpl in Hf;
        [discriminate|]. injection Hf as ->.
      exists groups, l1, k, df, l2.
      split; [reflexivity|]. split; [exact Hsplit|]. split; [exact E|].
      intros k' df' Hin. split.
      * pose proof (group_keys_strictly_sorted (rows gtf)) as Hs.
        rewrite <- (groupby_keys _ Hg), Hsplit, map_app in Hs. simpl in Hs.
        apply (StronglySorted_app_before _ _ _ Hs).
        apply in_map_iff. now exists (k', df').
      * destruct (Hl1 _ Hin) as [[k'' t] Hb]. simpl in Hb.
        destruct (from_gtf_df df') as [t'|]; simpl in Hb; [|discriminate].
        now exists t'.
    + left. unfold groupby_transcript_id in Hg.
      destruct (has_column gtf "transcript_id"); [discriminate|].
      split; [reflexivity|]. congruence.
  - right. right. apply junctions_Raise_first in Hraise.
    destruct Hraise as [l1 [k [t [l2 [Hsplit [He Hl1]]]]]].
    exists ts, l1, k, t, l2.
    split; [exact Hts|]. split; [exact Hsplit|]. split; [exact He|].
    intros k' t' Hin. split; [|now apply (Hl1 k')].
    pose proof (group_keys_strictly_sorted (rows gtf)) as Hs.
    rewrite <- (transcripts_keys _ Hts), Hsplit, map_app in Hs. simpl in Hs.
    apply (StronglySorted_app_before _ _ _ Hs).
    apply in_map_iff. now exists (k', t').
Qed.

(** X9. A row is in the junction table exactly when some transcript of
    the mapping has an intron with its chromosome, start, end and
    strand; no row is there twice, and the table has at most as many
    rows as the transcripts have introns. *)
Theorem X9_junction_table_rows
  (gtf : DataFrame) (df : Frame Junction)
  (Hdf : junction_table from_gtf_df introns gtf = Ok df) :
  exists ts accumulated,
    transcripts from_gtf_df gtf = Ok ts /\
    junctions introns ts = Ok accumulated /\
    (forall j,
        In j accumulated <->
        exists k t xs x,
          In (k, t) ts /\ introns t = Ok xs /\ In x xs /\
          j = junction_of x) /\
    (forall j,
        In j (rows df) <->
        exists k t xs x,
          In (k, t) ts /\ introns t = Ok xs /\ In x xs /\
          j = junction_of x) /\
    NoDup (rows df) /\
    (length (rows df) <= length accumulated)%nat /\
    columns df = ["Chromosome"; "Start"; "End"; "Strand"].
Proof.
  destruct (junction_table_inv _ _ _ Hdf) as [ts [accumulated [Hts [Hacc ->]]]].
  exists ts, accumulated. split; [exact Hts|]. split; [exact Hacc|].
  split; [apply (junctions_In _ Hacc)|].
  split; [|split; [|split]].
  - intros j. simpl.
    rewrite (@unique_In _ _ junction_eqb_eq), stable_sort_In.
    apply (junctions_In _ Hacc).
  - apply sort_dedup_NoDup.
  - simpl. etransitivity; [apply unique_length|].
    now rewrite stable_sort_length.
  - reflexivity.
Qed.

End PipelineMore.

(* ================================================================== *)
(** ** [generate_gtf] and [main] *)

Section ScriptProperties.

Variable urlparse : string -> string + (string * string).
Variable urlretrieve : string -> option string.
Variable read_gtf : string -> option DataFrame.
Variable to_feather : feather_table -> string -> bool.
Variable Transcript : Type.
Variable from_gtf_df : DataFrame -> result Transcript.
Variable introns : Transcript -> result (list genome.Interval).

Local Abbreviation generate_gtf' :=
  (generate_gtf urlparse urlretrieve read_gtf).
Local Abbreviation main' :=
  (main urlparse urlretrieve read_gtf to_feather from_gtf_df introns).

Lemma assign_gene_id_nopatch_Raise (table : DataFrame) (e : exn) :
  assign_gene_id_nopatch table = Raise e ->
  (has_column table "gene_id" = false /\ e = KeyError "gene_id") \/
  (has_column table "gene_id" = true /\ rows table = [] /\ e = KeyError "0").
Proof.
  unfold assign_gene_id_nopatch.
  destruct (has_column table "gene_id").
  - destruct (rows table); [|discriminate].
    intros H. injection H as <-. right. repeat split.
  - intros H. injection H as <-. left. now split.
Qed.

(** [generate_gtf] makes no call exactly when [urlparse] raises, and it
    makes no write; a table exception it ends with is the [KeyError] of
    the assignment on the table read. *)
Lemma generate_gtf_calls (path : string) :
  (fst (generate_gtf' path) = [] <->
   exists message, urlparse path = inl message) /\
  (forall p t, ~ In (ToFeather p t) (fst (generate_gtf' path))) /\
  (forall e, snd (generate_gtf' path) = inl (Raised e) ->
             exists local table,
               read_gtf local = Some table /\
               assign_gene_id_nopatch table = Raise e).
Proof.
  unfold generate_gtf, io_bind, io_call_of, io_lift, io_raise.
  destruct (urlparse path) as [message|url]; simpl.
  { split; [split; [now exists message|reflexivity]|].
    split; [intros p t []|discriminate]. }
  assert (Hno : (exists message : string,
                    @inr string (string * string) url = inl message) -> False)
    by (intros [m Hm]; discriminate).
  destruct (all_scheme_netloc url); simpl.
  - destruct (urlretrieve path) as [local|]; simpl.
    + destruct (read_gtf local) as [table|] eqn:Hr; simpl.
      * split; [split; [discriminate|intros H; now destruct Hno]|]. split.
        { intros p t [H|[H|[]]]; discriminate. }
        intros e He. exists local, table. split; [exact Hr|].
        destruct (assign_gene_id_nopatch table); [discriminate|congruence].
      * split; [split; [discriminate|intros H; now destruct Hno]|]. split.
        { intros p t [H|[H|[]]]; discriminate. }
        discriminate.
    + split; [split; [discriminate|intros H; now destruct Hno]|]. split.
      { intros p t [H|[]]; discriminate. }
      discriminate.
  - destruct (read_gtf path) as [table|] eqn:Hr; simpl.
    + split; [split; [discriminate|intros H; now destruct Hno]|]. split.
      { intros p t [H|[]]; discriminate. }
      intros e He. exists path, table. split; [exact Hr|].
      destruct (assign_gene_id_nopatch table); [discriminate|congruence].
    + split; [split; [discriminate|intros H; now destruct Hno]|]. split.
      { intros p t [H|[]]; discriminate. }
      discriminate.
Qed.

Lemma generate_gtf_urlparse_raises (path message : string) :
  urlparse path = inl message ->
  generate_gtf' path = ([], inl (ValueError message)).
Proof. unfold generate_gtf. now intros ->. Qed.

(** X10. When the output path does not end with [.feather], [main]
    ends with its [ValueError] and has made none of its calls: no
    download, no read, no write.  It makes no call only then, or when
    [urlparse] raises on the GTF path. *)
Theorem X10_main_rejects_output_path (flags : Flags) :
  (endswith (output_path flags) ".feather" = false ->
   main' flags = ([], inl (ValueError "Output path must end with .feather"))) /\
  (fst (main' flags) = [] <->
   endswith (output_path flags) ".feather" = false \/
   exists message, urlparse (gtf_path flags) = inl message).
Proof.
  unfold main.
  destruct (endswith (output_path flags) ".feather") eqn:E; simpl.
  - split; [discriminate|].
    destruct (generate_gtf_calls (gtf_path flags)) as [Hnil _].
    unfold io_bind, write_feather, io_call_of.
    destruct (generate_gtf' (gtf_path flags)) as [tr [e|gtf]] eqn:G;
      simpl in *.
    + rewrite Hnil. split; [now right|]. intros [H|H]; [discriminate|exact H].
    + split.
      * intros H. apply app_eq_nil in H. destruct H as [_ H].
        destruct (to_feather (GtfTable gtf) (output_path flags));
          simpl in H; discriminate.
      * intros [H|[m Hm]]; [discriminate|].
        rewrite (generate_gtf_urlparse_raises Hm) in G. discriminate.
  - split; [reflexivity|]. split; [now left|reflexivity].
Qed.

(** X11. Every path [main] writes to ends with [.feather]. *)
Theorem X11_main_writes_feather_paths
  (flags : Flags) (path : string) (table : feather_table)
  (Hcall : In (ToFeather path table) (fst (main' flags))) :
  endswith path ".feather" = true.
Proof.
  unfold main in Hcall.
  destruct (endswith (output_path flags) ".feather") eqn:E; simpl in Hcall;
    [|destruct Hcall].
  destruct (generate_gtf_calls (gtf_path flags)) as [_ [Hnw _]].
  unfold io_bind, write_feather, io_call_of, io_lift, io_ret in Hcall.
  destruct (generate_gtf' (gtf_path flags)) as [tr [e|gtf]]; simpl in *.
  - now apply Hnw in Hcall.
  - assert (Hs : forall q, endswith (splice_sites_start_path q) ".feather"
                           = true)
      by (intros q; apply endswith_app; reflexivity).
    assert (He : forall q, endswith (splice_sites_end_path q) ".feather"
                           = true)
      by (intros q; apply endswith_app; reflexivity).
    destruct (to_feather (GtfTable gtf) (output_path flags)); simpl in Hcall.
    + destruct (splice_sites_output_path flags) as [p|]; simpl in Hcall.
      * destruct (generate_splice_sites from_gtf_df introns gtf)
          as [[starts ends]|e]; simpl in Hcall.
        -- destruct (to_feather (SitesTable starts) (splice_sites_start_path p));
             simpl in Hcall;
             apply in_app_or in Hcall; destruct Hcall as [H|H];
             try (now apply Hnw in H); simpl in H;
             repeat (destruct H as [H|H];
                     [injection H as <- _; auto|]); destruct H.
        -- apply in_app_or in Hcall. destruct Hcall as [H|H];
             [now apply Hnw in H|]. simpl in H.
           destruct H as [H|[]]. now injection H as <- _.
      * apply in_app_or in Hcall. destruct Hcall as [H|H];
          [now apply Hnw in H|]. simpl in H.
        destruct H as [H|[]]. now injection H as <- _.
    + apply in_app_or in Hcall. destruct Hcall as [H|H];
        [now apply Hnw in H|]. simpl in H.
      destruct H as [H|[]]. now injection H as <- _.
Qed.

(** X12. The calls of [main] are those of [generate_gtf] followed by
    its writes, which are none, or the table [generate_gtf] returned
    written to the output path, or that write followed by the
    start-sites write, or those two followed by the end-sites write.
    The splice-site tables are written only with the flag given, only
    after the write of the GTF table succeeded, and they are the two
    tables [generate_splice_sites] returns on the table written. *)
Theorem X12_main_writes (flags : Flags) :
  exists writes,
    fst (main' flags) =
    (if endswith (output_path flags) ".feather"
     then fst (generate_gtf' (gtf_path flags)) else []) ++ writes /\
    (writes = [] \/
     exists gtf,
       endswith (output_path flags) ".feather" = true /\
       snd (generate_gtf' (gtf_path flags)) = inr gtf /\
       let w_gtf := ToFeather (output_path flags) (GtfTable gtf) in
       (writes = [w_gtf] \/
        exists p starts ends,
          splice_sites_output_path flags = Some p /\
          to_feather (GtfTable gtf) (output_path flags) = true /\
          generate_splice_sites from_gtf_df introns gtf = Ok (starts, ends) /\
          let w_starts :=
            ToFeather (splice_sites_start_path p) (SitesTable starts) in
          let w_ends :=
            ToFeather (splice_sites_end_path p) (SitesTable ends) in
          (writes = [w_gtf; w_starts] \/
           (writes = [w_gtf; w_starts; w_ends] /\
            to_feather (SitesTable starts) (splice_sites_start_path p)
            = true)))).
Proof.
  unfold main.
  destruct (endswith (output_path flags) ".feather") eqn:E; simpl;
    [|exists []; split; [reflexivity|now left]].
  unfold io_bind, write_feather, io_call_of, io_lift, io_ret.
  destruct (generate_gtf' (gtf_path flags)) as [tr [e|gtf]]; simpl.
  { exists []. split; [now rewrite app_nil_r|now left]. }
  destruct (to_feather (GtfTable gtf) (output_path flags)) eqn:W1; simpl.
  2:{ eexists. split; [reflexivity|]. right. exists gtf.
      split; [reflexivity|]. split; [reflexivity|]. now left. }
  destruct (splice_sites_output_path flags) as [p|]; simpl.
  2:{ eexists. split; [reflexivity|]. right. exists gtf.
      split; [reflexivity|]. split; [reflexivity|]. now left. }
  destruct (generate_splice_sites from_gtf_df introns gtf)
    as [[starts ends]|e] eqn:G; simpl.
  2:{ eexists. split; [reflexivity|]. right. exists gtf.
      split; [reflexivity|]. split; [reflexivity|]. now left. }
  destruct (to_feather (SitesTable starts) (splice_sites_start_path p)) eqn:W2;
    simpl.
  - eexists. split; [reflexivity|]. right. exists gtf.
    split; [reflexivity|]. split; [reflexivity|]. right.
    exists p, starts, ends.
    split; [reflexivity|]. split; [exact W1|]. split; [exact G|].
    right. split; [reflexivity|exact W2].
  - eexists. split; [reflexivity|]. right. exists gtf.
    split; [reflexivity|]. split; [reflexivity|]. right.
    exists p, starts, ends.
    split; [reflexivity|]. split; [exact W1|]. split; [exact G|].
    now left.
Qed.

(** X13. When [main] ends with an exception of the table functions,
    either it is the [KeyError] of the [gene_id_nopatch] assignment and
    nothing was written, or it is the exception
    [generate_splice_sites] raised on the table [generate_gtf]
    returned, and that table has been written to the output path
    before: the write is the last call of the run. *)
Theorem X13_main_table_exception
  (flags : Flags) (e : exn)
  (Hend : snd (main' flags) = inl (Raised e)) :
  ((e = KeyError "gene_id" \/ e = KeyError "0") /\
   snd (generate_gtf' (gtf_path flags)) = inl (Raised e) /\
   fst (main' flags) = fst (generate_gtf' (gtf_path flags))) \/
  exists gtf p,
    snd (generate_gtf' (gtf_path flags)) = inr gtf /\
    splice_sites_output_path flags = Some p /\
    generate_splice_sites from_gtf_df introns gtf = Raise e /\
    to_feather (GtfTable gtf) (output_path flags) = true /\
    fst (main' flags) =
    fst (generate_gtf' (gtf_path flags))
    ++ [ToFeather (output_path flags) (GtfTable gtf)].
Proof.
  unfold main in *.
  destruct (endswith (output_path flags) ".feather") eqn:E; simpl in *;
    [|discriminate].
  destruct (generate_gtf_calls (gtf_path flags)) as [_ [_ Hexn]].
  unfold io_bind, write_feather, io_call_of, io_lift, io_ret in *.
  destruct (generate_gtf' (gtf_path flags)) as [tr [e'|gtf]]; simpl in *.
  - left. injection Hend as ->. split; [|now split].
    destruct (Hexn e eq_refl) as [local [table [_ Ha]]].
    apply assign_gene_id_nopatch_Raise in Ha.
    destruct Ha as [[_ ->]|[_ [_ ->]]]; auto.
  - right.
    destruct (to_feather (GtfTable gtf) (output_path flags)) eqn:W1;
      simpl in *; [|discriminate].
    destruct (splice_sites_output_path flags) as [p|]; simpl in *;
      [|discriminate].
    destruct (generate_splice_sites from_gtf_df introns gtf)
      as [[starts ends]|e'] eqn:G; simpl in *.
    + destruct (to_feather (SitesTable starts) (splice_sites_start_path p));
        simpl in *; [|discriminate].
      destruct (to_feather (SitesTable ends) (splice_sites_end_path p));
        simpl in *; discriminate.
    + injection Hend as ->. exists gtf, p.
      split; [reflexivity|]. split; [reflexivity|]. split; [exact G|].
      split; [exact W1|reflexivity].
Qed.

End ScriptProperties.

(* ================================================================== *)
(** ** The further theorems at the example tables *)

Lemma X6_ties_in_transcript_order_witness :
  exists ts accumulated added,
    transcripts transcript_utils.from_gtf_df example_gtf = Ok ts /\
    junctions read_introns ts = Ok accumulated /\
    Forall2 (fun (kt : string * transcript_utils.Transcript)
                 (added_rows : list Junction) =>
               exists xs, read_introns (snd kt) = Ok xs /\
                          added_rows = map junction_of xs)
            ts added /\
    accumulated = concat added /\
    forall c s,
      filter (at_key c s) (rows example_junction_table) =
      unique junction_eqb (filter (at_key c s) accumulated).
Proof.
  apply (@X6_ties_in_transcript_order _ transcript_utils.from_gtf_df
           read_introns example_gtf example_junction_table).
  reflexivity.
Defined.

Lemma X7_transcripts_keys_witness :
  exists ts,
    transcripts transcript_utils.from_gtf_df example_gtf = Ok ts /\
    map fst ts = ["T1"; "T2"; "T3"; "T4"; "T5"] /\
    StronglySorted (fun a b => String.ltb a b = true) (map fst ts) /\
    NoDup (map fst ts).
Proof.
  eexists. split; [reflexivity|]. split; [reflexivity|].
  pose proof (@X7_transcripts_keys _ transcript_utils.from_gtf_df
                example_gtf _ eq_refl) as [Hs [Hn _]].
  split; [exact Hs|exact Hn].
Defined.

Lemma X8_first_failing_partition_witness :
  (has_column two_malformed_gtf "transcript_id" = false /\
   MalformedGroupError = KeyError "transcript_id") \/
  (exists groups before k df after,
      groupby_transcript_id two_malformed_gtf = Ok groups /\
      groups = before ++ (k, df) :: after /\
      transcript_utils.from_gtf_df df = Raise MalformedGroupError /\
      forall k' df',
        In (k', df') before ->
        String.ltb k' k = true /\
        exists t, transcript_utils.from_gtf_df df' = Ok t) \/
  (exists ts before k t after,
      transcripts transcript_utils.from_gtf_df two_malformed_gtf = Ok ts /\
      ts = before ++ (k, t) :: after /\
      read_introns t = Raise MalformedGroupError /\
      forall k' t',
        In (k', t') before ->
        String.ltb k' k = true /\ exists xs, read_introns t' = Ok xs).
Proof.
  apply (@X8_first_failing_partition _ transcript_utils.from_gtf_df
           read_introns two_malformed_gtf MalformedGroupError).
  reflexivity.
Defined.

Lemma X9_junction_table_rows_witness :
  exists ts accumulated,
    transcripts transcript_utils.from_gtf_df example_gtf = Ok ts /\
    junctions read_introns ts = Ok accumulated /\
    (forall j,
        In j accumulated <->
        exists k t xs x,
          In (k, t) ts /\ read_introns t = Ok xs /\ In x xs /\
          j = junction_of x) /\
    (forall j,
        In j (rows example_junction_table) <->
        exists k t xs x,
          In (k, t) ts /\ read_introns t = Ok xs /\ In x xs /\
          j = junction_of x) /\
    NoDup (rows example_junction_table) /\
    (length (rows example_junction_table) <= length accumulated)%nat /\
    columns example_junction_table = ["Chromosome"; "Start"; "End"; "Strand"].
Proof.
  apply (@X9_junction_table_rows _ transcript_utils.from_gtf_df
           read_introns example_gtf example_junction_table).
  reflexivity.
Defined.

(** A run of [main] on the table of the test: one read, three
    writes. *)
Example example_main_run :
  example_main _PROCESSED_GTF example_flags =
  ([ ReadGtf "annotation.gtf";
     ToFeather "out/gtf.feather" (GtfTable _PROCESSED_GTF);
     ToFeather "out/sites_starts.feather"
       (SitesTable (mkFrame ["Chromosome"; "Start"; "Strand"]
                            [("chr1", 14148, "+")]));
     ToFeather "out/sites_ends.feather"
       (SitesTable (mkFrame ["Chromosome"; "End"; "Strand"]
                            [("chr1", 16195, "+")])) ],
   inr tt).
Proof. reflexivity. Qed.

Lemma X11_main_writes_feather_paths_witness :
  endswith "out/sites_ends.feather" ".feather" = true.
Proof.
  apply (@X11_main_writes_feather_paths
           (fun _ => inr ("", "")) (fun _ => None)
           (fun _ => Some _PROCESSED_GTF)
           (fun _ _ => true) _
           transcript_utils.from_gtf_df read_introns
           example_flags "out/sites_ends.feather"
           (SitesTable (mkFrame ["Chromosome"; "End"; "Strand"]
                                [("chr1", 16195, "+")]))).
  right. right. right. left. reflexivity.
Defined.

(** A table without the column [transcript_id]: the run writes the GTF
    table and ends with the [KeyError] of [generate_splice_sites]. *)
Example example_main_partial :
  example_main no_transcript_id_table example_flags =
  ([ ReadGtf "annotation.gtf";
     ToFeather "out/gtf.feather"
       (GtfTable (mkFrame (columns no_transcript_id_table
                           ++ ["gene_id_nopatch"])
                          (rows _PROCESSED_GTF))) ],
   inl (Raised (KeyError "transcript_id"))).
Proof. reflexivity. Qed.

Lemma X13_main_table_exception_witness :
  exists gtf p,
    snd (generate_gtf (fun _ => inr ("", "")) (fun _ => None)
           (fun _ => Some no_transcript_id_table) "annotation.gtf") = inr gtf /\
    splice_sites_output_path example_flags = Some p /\
    generate_splice_sites transcript_utils.from_gtf_df
      read_introns gtf = Raise (KeyError "transcript_id") /\
    fst (example_main no_transcript_id_table example_flags) =
    fst (generate_gtf (fun _ => inr ("", "")) (fun _ => None)
           (fun _ => Some no_transcript_id_table) "annotation.gtf")
    ++ [ToFeather "out/gtf.feather" (GtfTable gtf)].
Proof.
  destruct (@X13_main_table_exception
              (fun _ => inr ("", "")) (fun _ => None)
              (fun _ => Some no_transcript_id_table) (fun _ _ => true) _
              transcript_utils.from_gtf_df read_introns
              example_flags (KeyError "transcript_id") eq_refl)
    as [[[H|H] _]|[gtf [p [H1 [H2 [H3 [_ H5]]]]]]].
  - discriminate.
  - discriminate.
  - exists gtf, p. split; [exact H1|]. split; [exact H2|].
    split; [exact H3|exact H5].
Defined.

(* ================================================================== *)
(** ** Sorting and deduplicating concatenated tables *)

Section DropDuplicatesCompose.

Variable A : Type.
Variable eqb : A -> A -> bool.
Hypothesis eqb_eq : forall a b, eqb a b = true <-> a = b.

Lemma mem_app (x : A) (s t : list A) :
  mem eqb x (s ++ t) = mem eqb x s || mem eqb x t.
Proof. unfold mem. apply existsb_app. Qed.

Lemma drop_seen_drop_seen (l : list A) :
  forall s t,
    drop_seen eqb s (drop_seen eqb t l) = drop_seen eqb (s ++ t) l.
Proof.
  induction l as [|y l IH]; intros s t; simpl; [reflexivity|].
  rewrite mem_app.
  destruct (mem eqb y t) eqn:Mt.
  - rewrite orb_true_r. apply IH.
  - rewrite orb_false_r. simpl.
    destruct (mem eqb y s) eqn:Ms.
    + rewrite IH. apply drop_seen_ext. intros x _.
      rewrite !mem_app. unfold mem at 2. simpl.
      destruct (eqb x y) eqn:E; [|reflexivity].
      apply eqb_eq in E. subst x. now rewrite Ms.
    + f_equal. rewrite IH. apply drop_seen_ext. intros x _.
      change (mem eqb x ((y :: s) ++ y :: t) = mem eqb x (y :: s ++ t)).
      rewrite mem_app. unfold mem. simpl. rewrite existsb_app.
      destruct (eqb x y); simpl; [reflexivity|].
      reflexivity.
Qed.

(** Duplicates may be removed from the parts first. *)
Lemma unique_app_unique (l1 l2 : list A) :
  unique eqb (unique eqb l1 ++ unique eqb l2) = unique eqb (l1 ++ l2).
Proof.
  unfold unique at 1 4. rewrite !(@drop_seen_app _ _ eqb_eq).
  rewrite !app_nil_r.
  fold (unique eqb (unique eqb l1)). rewrite (@unique_idempotent _ _ eqb_eq).
  f_equal. unfold unique at 2. rewrite drop_seen_drop_seen, app_nil_r.
  apply drop_seen_ext. intros x _.
  destruct (mem eqb x (rev l1)) eqn:E.
  - apply (@mem_In _ _ eqb_eq). rewrite <- in_rev. apply (@unique_In _ _ eqb_eq).
    rewrite in_rev. now apply (@mem_In _ _ eqb_eq).
  - apply (@mem_false _ _ eqb_eq). rewrite <- in_rev, (@unique_In _ _ eqb_eq).
    rewrite in_rev. now apply (@mem_false _ _ eqb_eq).
Qed.

End DropDuplicatesCompose.

(** X14. Sorting and deduplicating the concatenation of two junction
    tables gives the table that the concatenation of the two sorted and
    deduplicated tables gives: tables may be processed in parts and
    the results processed together. *)
Theorem X14_sort_dedup_concat (cols : list string) (l1 l2 : list Junction) :
  sort_dedup (mkFrame cols (l1 ++ l2)) =
  sort_dedup (mkFrame cols (rows (sort_dedup (mkFrame cols l1)) ++
                            rows (sort_dedup (mkFrame cols l2)))).
Proof.
  unfold sort_dedup, drop_duplicates, sort_values. cbn [rows columns].
  f_equal.
  apply (@sorted_same_filters_eq _ _ junction_key_leb_total).
  - apply (@unique_sorted _ _ junction_eqb_eq), stable_sort_sorted.
    + apply junction_key_leb_total.
    + apply junction_key_leb_trans.
  - apply (@unique_sorted _ _ junction_eqb_eq), stable_sort_sorted.
    + apply junction_key_leb_total.
    + apply junction_key_leb_trans.
  - intros a.
    assert (Hst : forall l,
               filter (same_key junction_key_leb a)
                      (stable_sort junction_key_leb l) =
               filter (same_key junction_key_leb a) l).
    { intros l.
      apply (proj2 (@stable_sort_is_stable_sort _ _ junction_key_leb_total
                      junction_key_leb_trans l)). }
    rewrite !(@filter_unique _ _ junction_eqb_eq), !Hst, !filter_app.
    rewrite !(@filter_unique _ _ junction_eqb_eq), !Hst.
    symmetry. apply (@unique_app_unique _ _ junction_eqb_eq).
Qed.

Example sort_dedup_concat_example :
  rows (sort_dedup (mkFrame junction_columns
          ([("chr1", 200, 350, "+"); ("chr1", 200, 300, "+")] ++
           [("chr1", 200, 300, "+"); ("chr1", 100, 150, "-")]))) =
  [("chr1", 100, 150, "-"); ("chr1", 200, 350, "+"); ("chr1", 200, 300, "+")].
Proof. reflexivity. Qed.
